(** * A shallow embedding of the shell of [app/main.py]

    The development follows the source file top to bottom: the Python
    primitives it calls, the path search ([find_executable]), the
    completion engine ([CommandCompleter]), the built-in commands, the
    command registry with its redirection handling, and the main loop.

    A Python [str] is modelled by [string]; each [ascii] stands for the
    code point of the same number (U+0000 to U+00FF).  The empty string
    is written [EmptyString] throughout. *)

From Stdlib Require Import String Ascii ZArith Lia Bool OrdersEx Sorted DecimalString.
From stdpp Require Import base option list strings gmap.

Local Open Scope string_scope.

(** ** Python primitives on strings and lists *)

Module Py.

(** [s.startswith(p)] *)
Definition startswith (s p : string) : bool := String.prefix p s.

(** [s[:-1]]: every character but the last one. *)
Fixpoint drop_last (s : string) : string :=
  match s with
  | EmptyString => EmptyString
  | String c EmptyString => EmptyString
  | String c s' => String c (drop_last s')
  end.

(** [s.split(sep)] for a one-character separator.  The result is never
    empty: splitting the empty string gives one empty field. *)
Fixpoint split (sep : ascii) (s : string) : list string :=
  match s with
  | EmptyString => [EmptyString]
  | String c s' =>
      if Ascii.eqb c sep then EmptyString :: split sep s'
      else match split sep s' with
           | w :: ws => String c w :: ws
           | [] => [String c EmptyString]
           end
  end.

(** [sep.join(l)] *)
Definition join (sep : string) (l : list string) : string := String.concat sep l.

(** [os.path.join(a, b)] of [posixpath]: an absolute [b] discards [a];
    otherwise a slash is put between them unless [a] is empty or ends
    with one. *)
Definition ends_with_slash (a : string) : bool :=
  match String.get (String.length a - 1) a with
  | Some c => Ascii.eqb c "/"
  | None => false
  end.

Definition path_join (a b : string) : string :=
  if startswith b "/" then b
  else if String.eqb a EmptyString || ends_with_slash a then a ++ b
  else a ++ "/" ++ b.

(** [x in l] on a list of strings. *)
Definition contains (l : list string) (x : string) : bool :=
  bool_decide (x ∈ l).

(** [l.index(x)]: position of the first occurrence.  Python raises
    [ValueError] when there is none; the source only calls it after an
    [in] test, and [None] stands for that exception. *)
Fixpoint index (l : list string) (x : string) : option nat :=
  match l with
  | [] => None
  | y :: l' => if String.eqb y x then Some 0 else S <$> index l' x
  end.

(** [c.isdigit()] on one code point below 256: the decimal digits and
    the three superscript digits U+00B2, U+00B3 and U+00B9, whose
    Unicode numeric type is Digit. *)
Definition is_decimal_char (c : ascii) : bool :=
  let n := nat_of_ascii c in ((48 <=? n) && (n <=? 57))%nat.

Definition is_digit_char (c : ascii) : bool :=
  let n := nat_of_ascii c in
  is_decimal_char c || (n =? 178)%nat || (n =? 179)%nat || (n =? 185)%nat.

Fixpoint all_chars (p : ascii -> bool) (s : string) : bool :=
  match s with
  | EmptyString => true
  | String c s' => p c && all_chars p s'
  end.

(** [s.isdigit()]: at least one character and all of them digits. *)
Definition isdigit (s : string) : bool :=
  negb (String.eqb s EmptyString) && all_chars is_digit_char s.

(** Value of a string of decimal digits, most significant first. *)
Fixpoint decimal_value (acc : Z) (s : string) : Z :=
  match s with
  | EmptyString => acc
  | String c s' => decimal_value (10 * acc + (Z.of_nat (nat_of_ascii c) - 48)) s'
  end.

(** The decimal digits a string starts with, leading zeros included. *)
Fixpoint leading_decimals (s : string) : nat :=
  match s with
  | EmptyString => 0
  | String c s' => if is_decimal_char c then S (leading_decimals s') else 0
  end.

(** [sys.get_int_max_str_digits()], at its default. *)
Definition int_max_str_digits : Z := 4300.

(** [int(s)] for a string [s] that satisfies [isdigit] (the only strings
    the source converts).  The interpreter first counts the decimal
    digits the string starts with and refuses more than
    [int_max_str_digits] of them; otherwise the result is the value when
    every character is a decimal digit, and a superscript digit makes
    the literal invalid.  The two refusals are [ValueError]s. *)
Inductive int_outcome :=
  | IntValue (n : Z)
  | TooManyDigits (digits : nat)
  | InvalidLiteral.

Definition int (s : string) : int_outcome :=
  if Z.ltb int_max_str_digits (Z.of_nat (leading_decimals s))
  then TooManyDigits (leading_decimals s)
  else if negb (String.eqb s EmptyString) && all_chars is_decimal_char s
  then IntValue (decimal_value 0 s)
  else InvalidLiteral.

(** [str(n)] for a natural number. *)
Definition str_of_nat (n : nat) : string := NilEmpty.string_of_uint (Nat.to_uint n).

(** [repr(s)] cut to 200 characters, as the message of an invalid
    literal shows it, for a string [s] of digit characters (no quote and
    nothing to escape). *)
Definition repr_200 (s : string) : string :=
  String.substring 0 200 ("'" ++ s ++ "'").

(** [sorted(set(l))]: the distinct elements of [l] in increasing order
    of code points. *)
Fixpoint insert_sorted (x : string) (l : list string) : list string :=
  match l with
  | [] => [x]
  | y :: l' =>
      match String.compare x y with
      | Lt => x :: y :: l'
      | Eq => y :: l'
      | Gt => y :: insert_sorted x l'
      end
  end.

Definition sorted_set (l : list string) : list string :=
  foldr insert_sorted [] l.

End Py.

(** The two control characters the source prints. *)
Definition newline : string := String "010"%char EmptyString.
Definition bell : string := String "007"%char EmptyString.

(** ** Exceptions, the world and the platform *)

(** The exceptions that occur in the program.  [SystemExit] derives from
    [BaseException] only; [PermissionError] is a subclass of [OSError]
    (whose alias is [IOError]); [OSError] stands for every other
    subclass of it. *)
Inductive exn :=
| SystemExit (code : Z)
| IndexError (msg : string)
| ValueError (msg : string)
| PermissionError (msg : string)
| OSError (msg : string)
| RuntimeError (msg : string).

Definition str (e : exn) : string :=
  match e with
  | SystemExit _ => EmptyString
  | IndexError m | ValueError m | PermissionError m | OSError m | RuntimeError m => m
  end.

Definition is_Exception (e : exn) : bool :=
  match e with SystemExit _ => false | _ => true end.

Definition is_IndexError (e : exn) : bool :=
  match e with IndexError _ => true | _ => false end.

Definition is_IOError (e : exn) : bool :=
  match e with PermissionError _ | OSError _ => true | _ => false end.

Definition is_PermissionError (e : exn) : bool :=
  match e with PermissionError _ => true | _ => false end.

(** Open modes ["a"] and ["w"]. *)
Inductive open_mode := Append | Truncate.

(** What a command writes to: one of the two inherited streams
    ([sys.stdout], [sys.stderr]) or a file object made by [open]. *)
Inductive stream := SysStdout | SysStderr | FileObj (fd : nat).

Global Instance stream_eq_dec : EqDecision stream.
Proof. solve_decision. Defined.

Record file_object := {
  fo_path : string;
  fo_mode : open_mode;
  fo_closed : bool;
}.

(** The mutable part of the process and of the file system.  Files are
    keyed by their canonical path.  [file_objects] lists every object
    that [open] returned, in creation order; a [FileObj fd] refers to
    position [fd].  Text written through a file object is appended to
    the file's content at once (buffering is not modelled). *)
Record World := {
  files : gmap string string;
  cwd : string;
  file_objects : list file_object;
  sys_stdout : string;
  sys_stderr : string;
  spawned : list (list string * stream * stream);
}.

(** What the program takes from its platform and never changes: the
    environment, how a path resolves from a working directory, which
    canonical paths are directories, executable or listable, which
    cannot be opened for writing or entered, what a child process does,
    and the tokenizer [shlex.split] ([inl] is the message of the
    [ValueError] it raises).

    A child process is any program: [run_child argv cwd files] is either
    the exception with which it could not be started, or what it wrote
    to its standard output and to its standard error together with what
    it did to the files (it may create, change and remove any of them).
    Directories and permissions are fixed for the span that a property
    looks at. *)
Record Platform := {
  environ : gmap string string;
  realpath : string -> string -> string;
  isdir_real : string -> bool;
  access_x_real : string -> bool;
  listdir_real : string -> option (list string);
  open_error : string -> option string;
  chdir_error : string -> option exn;
  run_child : list string -> string -> gmap string string ->
              exn + (string * string * (gmap string string -> gmap string string));
  shlex_split : string -> string + list string;
}.

(** ** A state and exception monad *)

Inductive result (A : Type) := Ok (a : A) | Raise (e : exn).
Arguments Ok {A} a.
Arguments Raise {A} e.

Definition M (A : Type) : Type := World -> World * result A.

Definition ret {A} (a : A) : M A := fun w => (w, Ok a).

Definition raise {A} (e : exn) : M A := fun w => (w, Raise e).

Definition bind {A B} (m : M A) (k : A -> M B) : M B := fun w =>
  match m w with
  | (w', Ok a) => k a w'
  | (w', Raise e) => (w', Raise e)
  end.

(** [try: m except <classes> as e: h e] *)
Definition try_except {A} (m : M A) (catches : exn -> bool) (h : exn -> M A) : M A :=
  fun w =>
    match m w with
    | (w', Raise e) => if catches e then h e w' else (w', Raise e)
    | r => r
    end.

Notation "'let*' x := m 'in' k" := (bind m (fun x => k))
  (at level 10, x pattern, m at level 100, k at level 200).
Notation "m >> k" := (bind m (fun _ => k))
  (at level 62, right associativity).

(** ** Operating-system and library calls *)

Section Os.
Context (pf : Platform).

(** [os.getenv(k, default)] *)
Definition getenv (k dflt : string) : string := default dflt (environ pf !! k).

Definition isfile (w : World) (p : string) : bool :=
  negb (String.eqb p EmptyString) &&
  bool_decide (is_Some (files w !! realpath pf (cwd w) p)).

Definition isdir (w : World) (p : string) : bool :=
  negb (String.eqb p EmptyString) && isdir_real pf (realpath pf (cwd w) p).

(** [os.access(p, os.X_OK)] *)
Definition access_x (w : World) (p : string) : bool :=
  negb (String.eqb p EmptyString) && access_x_real pf (realpath pf (cwd w) p).

(** [os.listdir(p)]; [None] is [PermissionError]. *)
Definition listdir (w : World) (p : string) : option (list string) :=
  listdir_real pf (realpath pf (cwd w) p).

Definition set_files (f : gmap string string) (w : World) : World :=
  {| files := f; cwd := cwd w; file_objects := file_objects w;
     sys_stdout := sys_stdout w; sys_stderr := sys_stderr w; spawned := spawned w |}.

Definition set_cwd (d : string) (w : World) : World :=
  {| files := files w; cwd := d; file_objects := file_objects w;
     sys_stdout := sys_stdout w; sys_stderr := sys_stderr w; spawned := spawned w |}.

Definition set_file_objects (l : list file_object) (w : World) : World :=
  {| files := files w; cwd := cwd w; file_objects := l;
     sys_stdout := sys_stdout w; sys_stderr := sys_stderr w; spawned := spawned w |}.

Definition set_sys_stdout (s : string) (w : World) : World :=
  {| files := files w; cwd := cwd w; file_objects := file_objects w;
     sys_stdout := s; sys_stderr := sys_stderr w; spawned := spawned w |}.

Definition set_sys_stderr (s : string) (w : World) : World :=
  {| files := files w; cwd := cwd w; file_objects := file_objects w;
     sys_stdout := sys_stdout w; sys_stderr := s; spawned := spawned w |}.

Definition set_spawned (l : list (list string * stream * stream)) (w : World) : World :=
  {| files := files w; cwd := cwd w; file_objects := file_objects w;
     sys_stdout := sys_stdout w; sys_stderr := sys_stderr w; spawned := l |}.

(** [open(path, mode)] for the two writing modes: the file is created
    when absent, emptied in mode ["w"], kept in mode ["a"]. *)
Definition open_ (path : string) (mode : open_mode) : M stream := fun w =>
  let p := realpath pf (cwd w) path in
  let failure :=
    if String.eqb path EmptyString
    then Some "[Errno 2] No such file or directory: ''"
    else open_error pf p in
  match failure with
  | Some msg => (w, Raise (OSError msg))
  | None =>
      let content :=
        match mode with
        | Truncate => EmptyString
        | Append => default EmptyString (files w !! p)
        end in
      let fo := {| fo_path := p; fo_mode := mode; fo_closed := false |} in
      (set_file_objects (file_objects w ++ [fo]) (set_files (<[p := content]> (files w)) w),
       Ok (FileObj (length (file_objects w))))
  end.

(** [f.close()]; closing twice is allowed. *)
Definition close (t : stream) : M unit := fun w =>
  match t with
  | FileObj fd =>
      match file_objects w !! fd with
      | Some fo =>
          (set_file_objects
             (<[fd := {| fo_path := fo_path fo; fo_mode := fo_mode fo; fo_closed := true |}]>
                (file_objects w)) w, Ok tt)
      | None => (w, Ok tt)
      end
  | _ => (w, Ok tt)
  end.

(** [t.write(s)]; a closed file object refuses with [ValueError]. *)
Definition write (t : stream) (s : string) : M unit := fun w =>
  match t with
  | SysStdout => (set_sys_stdout (sys_stdout w ++ s) w, Ok tt)
  | SysStderr => (set_sys_stderr (sys_stderr w ++ s) w, Ok tt)
  | FileObj fd =>
      match file_objects w !! fd with
      | Some fo =>
          if fo_closed fo then (w, Raise (ValueError "I/O operation on closed file."))
          else
            (set_files (<[fo_path fo := default EmptyString (files w !! fo_path fo) ++ s]> (files w)) w,
             Ok tt)
      | None => (w, Raise (ValueError "I/O operation on closed file."))
      end
  end.

(** [print(s, file=t)] *)
Definition print (s : string) (t : stream) : M unit := write t (s ++ newline).

(** [os.chdir(d)] *)
Definition chdir (d : string) : M unit := fun w =>
  let p := realpath pf (cwd w) d in
  match chdir_error pf p with
  | Some e => (w, Raise e)
  | None => (set_cwd p w, Ok tt)
  end.

(** [subprocess.run(argv, stdout=out, stderr=err)]: the child either
    cannot be started (an exception) or runs to its end; its output is
    in the two streams it was given and the files are as it left them. *)
Definition subprocess_run (argv : list string) (out err : stream) : M unit := fun w =>
  match run_child pf argv (cwd w) (files w) with
  | inl e => (w, Raise e)
  | inr (o, e, child_files) =>
      (write out o >> write err e >>
       (fun w' => (set_files (child_files (files w')) w', Ok tt)))
        (set_spawned (spawned w ++ [(argv, out, err)]) w)
  end.

(** [l[i]] *)
Definition subscript (l : list string) (i : nat) : M string :=
  match l !! i with
  | Some x => ret x
  | None => raise (IndexError "list index out of range")
  end.

(** [l.index(x)] as a call that can raise. *)
Definition list_index (l : list string) (x : string) : M nat :=
  match Py.index l x with
  | Some i => ret i
  | None => raise (ValueError (x ++ " is not in list"))
  end.

End Os.

(** ** Path search *)

Section PathSearch.
Context (pf : Platform).

(** The loop of [find_executable]: the first directory whose candidate
    is an executable regular file decides. *)
Fixpoint find_executable_in (w : World) (paths : list string) (command_name : string)
  : option string :=
  match paths with
  | [] => None
  | path :: paths' =>
      let full_path := Py.path_join path command_name in
      if isfile pf w full_path && access_x pf w full_path then Some full_path
      else find_executable_in w paths' command_name
  end.

Definition find_executable (w : World) (command_name : string) : option string :=
  let paths := Py.split ":" (getenv pf "PATH" EmptyString) in
  find_executable_in w paths command_name.

(** [if executable_path:] is false for [None] and for the empty string. *)
Definition truthy (o : option string) : bool :=
  match o with
  | Some p => negb (String.eqb p EmptyString)
  | None => false
  end.

(** The entries one directory contributes to an enumeration; [keep]
    is the test applied to [os.path.join(path, file)]. *)
Definition executables_of (keep : string -> bool) (w : World) (path : string) : list string :=
  if isdir pf w path then
    match listdir pf w path with
    | Some entries => filter (fun f => Is_true (keep (Py.path_join path f))) entries
    | None => []
    end
  else [].

(** The module-level [get_executables_in_path]: executable regular
    files only. *)
Definition get_executables_in_path (w : World) : list string :=
  let paths := Py.split ":" (getenv pf "PATH" EmptyString) in
  Py.sorted_set
    (flat_map (executables_of (fun p => isfile pf w p && access_x pf w p) w) paths).

End PathSearch.

(** ** The completion engine *)

Record CommandCompleter := {
  matches : list string;
  last_text : string;
  match_index : Z;
  tab_count : nat;
}.

(** [CommandCompleter.__init__] *)
Definition CommandCompleter_init : CommandCompleter :=
  {| matches := []; last_text := EmptyString; match_index := (-1)%Z; tab_count := 0 |}.

Section Completer.
Context (pf : Platform).

(** [CommandCompleter.find_executables]: every entry that passes
    [os.access(..., os.X_OK)]; there is no [isfile] test here. *)
Definition find_executables (w : World) : list string :=
  Py.sorted_set
    (flat_map (executables_of pf (fun p => access_x pf w p) w)
       (Py.split ":" (getenv pf "PATH" EmptyString))).

(** The [while] loop of [longest_common_prefix] for one [word]: drop
    the last character of [prefix] until [word] starts with it.  [None]
    is the early return of the empty string, taken when the prefix
    becomes empty.  The loop
    runs at most once per character of [prefix], which bounds [fuel];
    the empty prefix always ends the loop, so the last branch is never
    reached when [fuel] is the length of [prefix]. *)
Fixpoint shorten (fuel : nat) (word prefix : string) : option string :=
  if Py.startswith word prefix then Some prefix
  else match fuel with
       | S fuel' =>
           let prefix' := Py.drop_last prefix in
           if String.eqb prefix' EmptyString then None
           else shorten fuel' word prefix'
       | O => Some prefix
       end.

(** The [for] loop of [longest_common_prefix]. *)
Fixpoint lcp_loop (prefix : string) (words : list string) : string :=
  match words with
  | [] => prefix
  | word :: words' =>
      match shorten (String.length prefix) word prefix with
      | Some prefix' => lcp_loop prefix' words'
      | None => EmptyString
      end
  end.

Definition longest_common_prefix (words : list string) : string :=
  match words with
  | [] => EmptyString
  | word0 :: words' => lcp_loop word0 words'
  end.

Definition builtins : list string := ["echo"; "exit"; "type"].

Definition all_commands (w : World) : list string :=
  Py.sorted_set (builtins ++ find_executables w).

Definition set_tab_count (n : nat) (self : CommandCompleter) : CommandCompleter :=
  {| matches := matches self; last_text := last_text self;
     match_index := match_index self; tab_count := n |}.

Definition set_match_index (i : Z) (self : CommandCompleter) : CommandCompleter :=
  {| matches := matches self; last_text := last_text self;
     match_index := i; tab_count := tab_count self |}.

(** [self.matches[i]] for a Python index [i]. *)
Definition match_at (self : CommandCompleter) (i : Z) : string :=
  default EmptyString (matches self !! Z.to_nat i).

(** [CommandCompleter.completer(text, state)]: the new state of the
    object and the returned value ([None] is Python's [None]). *)
Definition completer (self : CommandCompleter) (text : string) (state : nat)
  : M (CommandCompleter * option string) := fun w =>
  let all_commands := all_commands w in
  if (state =? 0)%nat then
    let self :=
      if negb (String.eqb text (last_text self)) then
        {| matches := filter (fun cmd => Is_true (Py.startswith cmd text)) all_commands;
           match_index := (-1)%Z;
           last_text := text;
           tab_count := 0 |}
      else self in
    match matches self with
    | [m] => ret (self, Some (m ++ " ")) w
    | _ :: _ :: _ =>
        let common_prefix := longest_common_prefix (matches self) in
        if negb (String.eqb common_prefix text) then ret (self, Some common_prefix) w
        else
          let self := set_tab_count (tab_count self + 1) self in
          if (tab_count self =? 1)%nat then
            (write SysStdout bell >> ret (self, None)) w
          else if (tab_count self =? 2)%nat then
            (print (newline ++ Py.join "  " (matches self)) SysStdout >>
             write SysStdout ("$ " ++ text) >>
             ret (self, None)) w
          else
            let self :=
              set_match_index
                ((match_index self + 1) mod Z.of_nat (length (matches self)))%Z self in
            ret (self, Some (match_at self (match_index self) ++ " ")) w
    | [] => ret (self, None) w
    end
  else ret (self, None) w.

End Completer.

(** ** Built-in commands *)

Inductive Command := EchoCommand | ExitCommand | TypeCommand | PwdCommand | CdCommand.

(** [CommandRegistry]: its [commands] dictionary. *)
Record CommandRegistry := { commands : gmap string Command }.

Definition CommandRegistry_init : CommandRegistry := {| commands := ∅ |}.

Definition register (name : string) (command : Command) (self : CommandRegistry)
  : CommandRegistry :=
  {| commands := <[name := command]> (commands self) |}.

Section Commands.
Context (pf : Platform).

Definition EchoCommand_execute (args : list string) (stdout stderr : stream) : M unit :=
  print (Py.join " " args) stdout.

Definition sys_exit {A} (code : Z) : M A := raise (SystemExit code).

Definition int_ (s : string) : M Z :=
  match Py.int s with
  | Py.IntValue n => ret n
  | Py.TooManyDigits digits =>
      raise (ValueError
               ("Exceeds the limit (4300 digits) for integer string conversion: value has " ++
                Py.str_of_nat digits ++
                " digits; use sys.set_int_max_str_digits() to increase the limit"))
  | Py.InvalidLiteral =>
      raise (ValueError ("invalid literal for int() with base 10: " ++ Py.repr_200 s))
  end.

Definition ExitCommand_execute (args : list string) (stdout stderr : stream) : M unit :=
  match args with
  | [a] =>
      if Py.isdigit a then let* n := int_ a in sys_exit n
      else sys_exit 0%Z
  | _ => sys_exit 0%Z
  end.

(** [TypeCommand] holds the registry it was created with, which in
    [main] is the registry it is registered in. *)
Definition TypeCommand_execute (registry : CommandRegistry)
    (args : list string) (stdout stderr : stream) : M unit :=
  match args with
  | [] => print "type: missing argument" stderr
  | command_name :: _ =>
      if bool_decide (is_Some (commands registry !! command_name)) then
        print (command_name ++ " is a shell builtin") stdout
      else fun w =>
        let executable_path := find_executable pf w command_name in
        if truthy executable_path then
          print (command_name ++ " is " ++ default EmptyString executable_path) stdout w
        else
          print (command_name ++ ": not found") stderr w
  end.

Definition PwdCommand_execute (args : list string) (stdout stderr : stream) : M unit :=
  fun w => print (cwd w) stdout w.

Definition CdCommand_execute (args : list string) (stdout stderr : stream) : M unit :=
  match args with
  | [arg] =>
      let target_directory :=
        if String.eqb arg "~" then getenv pf "HOME" "/" else arg in
      fun w =>
        if isdir pf w target_directory then
          try_except (chdir pf target_directory) is_PermissionError
            (fun _ => print ("cd: " ++ target_directory ++ ": Permission denied") stderr) w
        else
          print ("cd: " ++ target_directory ++ ": No such file or directory") stderr w
  | _ => print "cd: missing operand" stderr
  end.

Definition Command_execute (registry : CommandRegistry) (c : Command)
  : list string -> stream -> stream -> M unit :=
  match c with
  | EchoCommand => EchoCommand_execute
  | ExitCommand => ExitCommand_execute
  | TypeCommand => TypeCommand_execute registry
  | PwdCommand => PwdCommand_execute
  | CdCommand => CdCommand_execute
  end.

(** ** The command registry *)

Definition run_external_command (name : string) (args : list string)
    (stdout stderr : stream) : M unit := fun w =>
  let executable_path := find_executable pf w name in
  if truthy executable_path then
    try_except (subprocess_run pf (name :: args) stdout stderr) is_Exception
      (fun e => print ("Error running " ++ name ++ ": " ++ str e) SysStderr) w
  else
    print (name ++ ": command not found") stderr w.

Definition _execute_command (self : CommandRegistry) (parts : list string)
    (stdout stderr : stream) : M unit :=
  match parts with
  | [] => ret tt
  | command_name :: args =>
      match commands self !! command_name with
      | Some command => Command_execute self command args stdout stderr
      | None => run_external_command command_name args stdout stderr
      end
  end.

(** One [try] block of [execute]: find the operator, keep the tokens
    before it, take the next token as file name and open it.  [Some]
    carries the new [command_parts] and target; [None] is the [return]
    of the [except] clause, after its message went to [sys.stderr]. *)
Definition redirection (find : M nat) (parts sliced : list string) (mode : open_mode)
    (what : string) : M (option (list string * stream)) :=
  try_except
    (let* operator_index := find in
     let command_parts := take operator_index sliced in
     let* file := subscript parts (operator_index + 1) in
     let* target := open_ pf file mode in
     ret (Some (command_parts, target)))
    (fun e => is_IndexError e || is_IOError e)
    (fun e =>
       print ("Error handling " ++ what ++ " redirection: " ++ str e) SysStderr >>
       ret None).

(** [parts.index(a) if a in parts else parts.index(b)] *)
Definition index_either (parts : list string) (a b : string) : M nat :=
  if Py.contains parts a then list_index parts a else list_index parts b.

(** The first [if]/[elif] of [execute]: the stdout class. *)
Definition stdout_redirection (parts : list string)
  : M (option (list string * stream)) :=
  if Py.contains parts ">>" || Py.contains parts "1>>" then
    redirection (index_either parts ">>" "1>>") parts parts Append "stdout append"
  else if Py.contains parts ">" || Py.contains parts "1>" then
    redirection (index_either parts ">" "1>") parts parts Truncate "stdout"
  else ret (Some (parts, SysStdout)).

(** The second [if]/[elif] of [execute]: the stderr class, which cuts
    [command_parts] as the first one left it. *)
Definition stderr_redirection (parts command_parts : list string)
  : M (option (list string * stream)) :=
  if Py.contains parts "2>>" then
    redirection (list_index parts "2>>") parts command_parts Append "stderr append"
  else if Py.contains parts "2>" then
    redirection (list_index parts "2>") parts command_parts Truncate "stderr"
  else ret (Some (command_parts, SysStderr)).

(** [stdout_target.close()] under [if stdout_target is not sys.stdout]. *)
Definition close_unless (inherited target : stream) : M unit :=
  if bool_decide (target = inherited) then ret tt else close target.

(** [CommandRegistry.execute] after [shlex.split]. *)
Definition execute_parts (self : CommandRegistry) (parts : list string) : M unit :=
  let* r1 := stdout_redirection parts in
  match r1 with
  | None => ret tt
  | Some (command_parts, stdout_target) =>
      let* r2 := stderr_redirection parts command_parts in
      match r2 with
      | None => ret tt
      | Some (command_parts, stderr_target) =>
          _execute_command self command_parts stdout_target stderr_target >>
          close_unless SysStdout stdout_target >>
          close_unless SysStderr stderr_target
      end
  end.

Definition execute (self : CommandRegistry) (command_input : string) : M unit :=
  match shlex_split pf command_input with
  | inl msg => raise (ValueError msg)
  | inr parts => execute_parts self parts
  end.

(** ** The main loop *)

(** The registry that [main] builds. *)
Definition main_registry : CommandRegistry :=
  register "cd" CdCommand
    (register "pwd" PwdCommand
       (register "type" TypeCommand
          (register "exit" ExitCommand
             (register "echo" EchoCommand CommandRegistry_init)))).

(** One turn of the loop for a line that [input] returned: the prompt,
    the command, and the [except Exception] clause. *)
Definition main_step (registry : CommandRegistry) (command_input : string) : M unit :=
  write SysStdout "$ " >>
  try_except (execute registry command_input) is_Exception
    (fun e => print ("Error: " ++ str e) SysStderr).

(** The loop over the lines that standard input holds.  At the end of
    input [input] raises [EOFError] after its prompt and the loop
    breaks.  A raised [SystemExit] leaves the loop and ends the
    process with its code. *)
Fixpoint main_loop (registry : CommandRegistry) (lines : list string) : M unit :=
  match lines with
  | [] => write SysStdout "$ "
  | command_input :: lines' =>
      main_step registry command_input >> main_loop registry lines'
  end.

Definition main (lines : list string) : M unit := main_loop main_registry lines.

End Commands.

(** ** A concrete platform and world, used to run the program *)

Module Demo.

Definition member (p : string) (l : list string) : bool := bool_decide (p ∈ l).

(** Lines without quotes or escapes: the tokens are the non-empty
    fields between spaces, as [shlex.split] gives for such lines. *)
Definition tokens (line : string) : string + list string :=
  inr (filter (fun t => t ≠ EmptyString) (Py.split " " line)).

(** Two search directories, a home directory, a directory [/locked]
    that cannot be searched (it can be examined, but neither entered nor
    looked into: no path below it is seen as a directory, and entering
    one is refused like entering [/locked] itself) and a directory in
    which nothing can be created. *)
Definition platform (path_var : option string) : Platform := {|
  environ :=
    match path_var with
    | Some v => <["PATH" := v]> {["HOME" := "/home/u"]}
    | None => {["HOME" := "/home/u"]}
    end;
  realpath := fun cwd p => if Py.startswith p "/" then p else Py.path_join cwd p;
  isdir_real := fun p => member p ["/"; "/bin"; "/usr/bin"; "/home/u"; "/locked"; "/bin/sub"];
  access_x_real := fun p =>
    member p ["/bin/ls"; "/bin/cat"; "/usr/bin/cat"; "/usr/bin/env"; "/bin/sub"; "/home/u/prog"];
  listdir_real := fun p =>
    if String.eqb p "/bin" then Some ["ls"; "cat"; "sub"; "notes.txt"]
    else if String.eqb p "/usr/bin" then Some ["env"; "cat"]
    else None;
  open_error := fun p =>
    if Py.startswith p "/nonexistent/" then Some "[Errno 2] No such file or directory"
    else if Py.startswith p "/locked/" then Some "[Errno 13] Permission denied"
    else None;
  chdir_error := fun p =>
    if String.eqb p "/locked" || Py.startswith p "/locked/"
    then Some (PermissionError "[Errno 13] Permission denied")
    else None;
  run_child := fun argv cwd files => inr (EmptyString, EmptyString, fun m => m);
  shlex_split := tokens;
|}.

Definition world : World := {|
  files := list_to_map
    [("/bin/ls", "ELF"); ("/bin/cat", "ELF"); ("/usr/bin/cat", "ELF");
     ("/usr/bin/env", "ELF"); ("/bin/notes.txt", "text"); ("/home/u/prog", "ELF");
     ("/home/u/log", "old")];
  cwd := "/home/u";
  file_objects := [];
  sys_stdout := EmptyString;
  sys_stderr := EmptyString;
  spawned := [];
|}.

Definition pf : Platform := platform (Some "/bin:/usr/bin").
Definition pf_unset : Platform := platform None.

End Demo.

(** ** Definitions used to state the properties *)


(** The file object [fd] exists and is still open. *)
Definition is_open (w : World) (fd : nat) : Prop :=
  ∃ fo, file_objects w !! fd = Some fo ∧ fo_closed fo = false.

(** [open] on [file] fails in [w]. *)
Definition cannot_open (pf : Platform) (w : World) (file : string) : Prop :=
  file = EmptyString ∨ is_Some (open_error pf (realpath pf (cwd w) file)).

Section Derived.
Context (pf : Platform).

(** The two redirection steps of [execute] in sequence; [Some] carries
    what [execute] then hands to [_execute_command]. *)
Definition redirections (parts : list string)
  : M (option (list string * stream * stream)) :=
  let* r1 := stdout_redirection pf parts in
  match r1 with
  | None => ret None
  | Some (command_parts, stdout_target) =>
      let* r2 := stderr_redirection pf parts command_parts in
      match r2 with
      | None => ret None
      | Some (command_parts, stderr_target) =>
          ret (Some (command_parts, stdout_target, stderr_target))
      end
  end.

(** The end of [execute]: the call of [_execute_command] and the two
    conditional [close] calls. *)
Definition dispatch_then_close (self : CommandRegistry) (command_parts : list string)
    (stdout_target stderr_target : stream) : M unit :=
  _execute_command pf self command_parts stdout_target stderr_target >>
  close_unless SysStdout stdout_target >>
  close_unless SysStderr stderr_target.

(** One press of the completion key: the call [completer(text, 0)] on
    the completer object and the world. *)
Definition press (text : string) (st : CommandCompleter * World)
  : (CommandCompleter * World) * option string :=
  match completer pf st.1 text 0 st.2 with
  | (w', Ok (self', r)) => ((self', w'), r)
  | (w', Raise _) => ((st.1, w'), None)
  end.

(** The completer and the world after [n] presses with the same text. *)
Fixpoint after_presses (n : nat) (text : string) (st : CommandCompleter * World)
  : CommandCompleter * World :=
  match n with
  | O => st
  | S n' => (press text (after_presses n' text st)).1
  end.

End Derived.

(** The operator that [execute] honours in each class: the classes are
    searched in a fixed order of operators, and [index] gives the first
    occurrence of the operator found. *)
Module Honoured.

Definition stdout (parts : list string) : option (nat * open_mode) :=
  match Py.index parts ">>" with
  | Some i => Some (i, Append)
  | None =>
    match Py.index parts "1>>" with
    | Some i => Some (i, Append)
    | None =>
      match Py.index parts ">" with
      | Some i => Some (i, Truncate)
      | None =>
        match Py.index parts "1>" with
        | Some i => Some (i, Truncate)
        | None => None
        end
      end
    end
  end.

Definition stderr (parts : list string) : option (nat * open_mode) :=
  match Py.index parts "2>>" with
  | Some i => Some (i, Append)
  | None =>
    match Py.index parts "2>" with
    | Some i => Some (i, Truncate)
    | None => None
    end
  end.

(** The tokens before the earlier of the two honoured operators. *)
Definition command_args (parts : list string) : list string :=
  match stdout parts, stderr parts with
  | Some (i, _), Some (j, _) => take (i `min` j) parts
  | Some (i, _), None => take i parts
  | None, Some (j, _) => take j parts
  | None, None => parts
  end.

(** The target that an honoured operator at [i] with mode [mode]
    designates in [w']: a file object, open, on the file named by the
    token after the operator; with no operator, the inherited stream. *)
Definition designates (pf : Platform) (w w' : World) (parts : list string)
    (honoured : option (nat * open_mode)) (inherited target : stream) : Prop :=
  match honoured with
  | None => target = inherited
  | Some (i, mode) =>
      ∃ file fd,
        parts !! (i + 1) = Some file ∧ target = FileObj fd ∧
        file_objects w' !! fd =
          Some {| fo_path := realpath pf (cwd w) file; fo_mode := mode; fo_closed := false |}
  end.

End Honoured.

(** The redirection policy in the words of the specification: the
    tokens before the earliest operator of either class, and for each
    class its first operator. *)
Module Claimed.

Definition stdout_operators : list string := [">"; "1>"; ">>"; "1>>"].
Definition stderr_operators : list string := ["2>"; "2>>"].

Definition mode_of (operator : string) : open_mode :=
  if bool_decide (operator ∈ [">>"; "1>>"; "2>>"]) then Append else Truncate.

Definition first_of (class : list string) (parts : list string) : option (nat * open_mode) :=
  (fun hit : nat * string => (hit.1, mode_of hit.2)) <$> list_find (fun t => t ∈ class) parts.

Definition command_args (parts : list string) : list string :=
  match list_find (fun t => t ∈ (stdout_operators ++ stderr_operators)%list) parts with
  | Some (i, _) => take i parts
  | None => parts
  end.

End Claimed.

(** The six tokens that [execute] looks for. *)
Definition operator_tokens : list string := [">>"; "1>>"; ">"; "1>"; "2>>"; "2>"].



(** Every match that the completer holds starts with its last text. *)
Definition coherent (self : CommandCompleter) : Prop :=
  ∀ m, m ∈ matches self → Py.startswith m (last_text self) = true.

(** The stream [t] is not a file object that [w] already has. *)
Definition fresh_for (w : World) (t : stream) : Prop :=
  ∀ fd, t = FileObj fd → (length (file_objects w) ≤ fd)%nat.


(** A platform like [pf] on which every child process is [child]. *)
Definition with_child (pf : Platform)
    (child : list string → string → gmap string string →
             exn + (string * string * (gmap string string → gmap string string)))
  : Platform := {|
  environ := environ pf;
  realpath := realpath pf;
  isdir_real := isdir_real pf;
  access_x_real := access_x_real pf;
  listdir_real := listdir_real pf;
  open_error := open_error pf;
  chdir_error := chdir_error pf;
  run_child := child;
  shlex_split := shlex_split pf;
|}.

(** A child that writes nothing and removes the file that its last
    argument names, as the one of [env rm log] does. *)
Definition removing_child (pf : Platform) : Platform :=
  with_child pf (fun argv cwd _ =>
    match last argv with
    | Some f => inr (EmptyString, EmptyString, delete (realpath pf cwd f))
    | None => inr (EmptyString, EmptyString, fun m => m)
    end).

(** The text [s] has been added to the target [t], an inherited stream
    or an open file object, and nothing else has changed from [w] to
    [w']. *)
Definition appended (t : stream) (s : string) (w w' : World) : Prop :=
  match t with
  | SysStdout => w' = set_sys_stdout (sys_stdout w ++ s) w
  | SysStderr => w' = set_sys_stderr (sys_stderr w ++ s) w
  | FileObj fd =>
      ∃ fo, file_objects w !! fd = Some fo ∧ fo_closed fo = false ∧
        w' = set_files (<[fo_path fo := default EmptyString (files w !! fo_path fo) ++ s]>
                          (files w)) w
  end.

(** The target [t] can be written to in [w]. *)
Definition writable (w : World) (t : stream) : Prop :=
  ∀ fd, t = FileObj fd → is_open w fd.

(** Every file object of [w] is in [a] as it was. *)
Definition objects_kept (w a : World) : Prop :=
  ∀ fd, (fd < length (file_objects w))%nat →
        file_objects a !! fd = file_objects w !! fd.

(** From [w] to [a] processes were spawned or not, and if none was,
    every file of [w] is still a file in [a]. *)
Definition files_survive (w a : World) : Prop :=
  spawned w `prefix_of` spawned a ∧
  (spawned a = spawned w → ∀ p, is_Some (files w !! p) → is_Some (files a !! p)).
Example split_empty : Py.split ":" EmptyString = [EmptyString].
Proof. reflexivity. Qed.

Example split_dirs : Py.split ":" "/bin::/usr/bin" = ["/bin"; EmptyString; "/usr/bin"].
Proof. reflexivity. Qed.

Example path_join_examples :
  Py.path_join EmptyString "x" = "x" /\ Py.path_join "/a" "x" = "/a/x" /\
  Py.path_join "/a/" "x" = "/a/x" /\ Py.path_join "/a" "/x" = "/x" /\
  Py.path_join "/a" EmptyString = "/a/".
Proof. repeat split; reflexivity. Qed.

Example isdigit_examples :
  Py.isdigit "7" = true /\ Py.isdigit "abc" = false /\
  Py.isdigit EmptyString = false /\ Py.isdigit "-1" = false /\
  Py.isdigit (String "178"%char EmptyString) = true /\
  Py.int (String "178"%char EmptyString) = Py.InvalidLiteral /\
  Py.int "42" = Py.IntValue 42%Z /\ Py.int "007" = Py.IntValue 7%Z.
Proof. repeat split; vm_compute; reflexivity. Qed.

Example sorted_set_example :
  Py.sorted_set ["b"; "a"; "B"; "a"] = ["B"; "a"; "b"].
Proof. reflexivity. Qed.

(** * Properties *)

(** ** Facts about the Python primitives *)

Lemma contains_elem_of (l : list string) (x : string) :
  Py.contains l x = true <-> x ∈ l.
Proof. unfold Py.contains. rewrite bool_decide_eq_true. reflexivity. Qed.

Lemma contains_false (l : list string) (x : string) :
  Py.contains l x = false <-> x ∉ l.
Proof. unfold Py.contains. rewrite bool_decide_eq_false. reflexivity. Qed.

(** [index] returns the position of the first occurrence. *)
Lemma index_Some (l : list string) (x : string) (i : nat) :
  Py.index l x = Some i <->
  l !! i = Some x ∧ ∀ j, j < i → l !! j ≠ Some x.
Proof.
  revert i. induction l as [|y l IH]; intros i; simpl.
  - split; [discriminate | intros [H _]; discriminate].
  - destruct (String.eqb_spec y x) as [->|Hne].
    + split.
      * intros [= <-]. split; [reflexivity | lia].
      * intros [Hi Hfirst]. destruct i as [|i]; [reflexivity|].
        exfalso. apply (Hfirst 0); [lia | reflexivity].
    + destruct (Py.index l x) as [k|] eqn:Hk; simpl.
      * destruct (proj1 (IH k) eq_refl) as [Hk1 Hk2]. split.
        -- intros [= <-]. simpl. split; [exact Hk1|].
           intros [|j] Hj; simpl; [congruence | apply Hk2; lia].
        -- intros [Hi Hfirst]. destruct i as [|i]; simpl in *; [congruence|].
           f_equal. assert (Some k = Some i) as [= ->]; [|reflexivity].
           apply IH. split; [exact Hi|].
           intros j Hj. apply (Hfirst (S j)). lia.
      * split; [discriminate|]. intros [Hi Hfirst].
        destruct i as [|i]; simpl in *; [congruence|].
        assert (None = Some i) as H; [|discriminate H].
        apply IH. split; [exact Hi|].
        intros j Hj. apply (Hfirst (S j)). lia.
Qed.

Lemma index_None (l : list string) (x : string) :
  Py.index l x = None <-> x ∉ l.
Proof.
  induction l as [|y l IH]; simpl.
  - split; [intros _; apply not_elem_of_nil | reflexivity].
  - destruct (String.eqb_spec y x) as [->|Hne].
    + split; [discriminate | intros H; exfalso; apply H; left].
    + rewrite not_elem_of_cons, <- IH.
      destruct (Py.index l x); simpl.
      * split; [discriminate | intros [_ H]; discriminate].
      * split; [intros _; split; [congruence | reflexivity] | reflexivity].
Qed.

Lemma index_lt (l : list string) (x : string) (i : nat) :
  Py.index l x = Some i → i < length l.
Proof. intros H. apply index_Some in H as [H _]. eapply lookup_lt_Some, H. Qed.

Lemma index_contains (l : list string) (x : string) :
  Py.contains l x = true → ∃ i, Py.index l x = Some i.
Proof.
  intros H. destruct (Py.index l x) as [i|] eqn:Hi; [eauto|].
  apply index_None in Hi. apply contains_elem_of in H. contradiction.
Qed.

Lemma index_not_contains (l : list string) (x : string) :
  Py.contains l x = false → Py.index l x = None.
Proof. intros H. apply index_None, contains_false, H. Qed.

Lemma path_join_empty (b : string) : Py.path_join EmptyString b = b.
Proof. unfold Py.path_join. destruct (Py.startswith b "/"); reflexivity. Qed.

(** ** Path search *)

Section PathSearchFacts.
Context (pf : Platform) (w : World).

(** [find_executable] returns the candidate of the first directory, in
    listed order, whose candidate is an executable regular file. *)
Lemma find_executable_in_Some (paths : list string) (name p : string) :
  find_executable_in pf w paths name = Some p <->
  ∃ i dir,
    paths !! i = Some dir ∧ p = Py.path_join dir name ∧
    isfile pf w p && access_x pf w p = true ∧
    ∀ j dir', j < i → paths !! j = Some dir' →
      isfile pf w (Py.path_join dir' name) && access_x pf w (Py.path_join dir' name) = false.
Proof.
  induction paths as [|d paths IH]; simpl.
  - split; [discriminate | intros (i & dir & H & _); discriminate].
  - destruct (isfile pf w (Py.path_join d name) && access_x pf w (Py.path_join d name)) eqn:Hd.
    + split.
      * intros [= <-]. exists 0, d. repeat split; [exact Hd | intros; lia].
      * intros (i & dir & Hi & -> & Hok & Hfirst). destruct i as [|i].
        -- simpl in Hi. congruence.
        -- specialize (Hfirst 0 d ltac:(lia) eq_refl). congruence.
    + rewrite IH. split.
      * intros (i & dir & Hi & -> & Hok & Hfirst). exists (S i), dir.
        repeat split; [exact Hi | exact Hok |].
        intros [|j] dir' Hj Hdir'; simpl in Hdir'.
        -- congruence.
        -- apply (Hfirst j); [lia | exact Hdir'].
      * intros (i & dir & Hi & -> & Hok & Hfirst). destruct i as [|i].
        -- simpl in Hi. congruence.
        -- exists i, dir. repeat split; [exact Hi | exact Hok |].
           intros j dir' Hj Hdir'. apply (Hfirst (S j)); [lia | exact Hdir'].
Qed.

(** It returns [None] exactly when no directory has such a candidate. *)
Lemma find_executable_in_None (paths : list string) (name : string) :
  find_executable_in pf w paths name = None <->
  ∀ dir, dir ∈ paths →
    isfile pf w (Py.path_join dir name) && access_x pf w (Py.path_join dir name) = false.
Proof.
  induction paths as [|d paths IH]; simpl.
  - split; [intros _ dir H; inversion H | reflexivity].
  - destruct (isfile pf w (Py.path_join d name) && access_x pf w (Py.path_join d name)) eqn:Hd.
    + split; [discriminate|]. intros H. specialize (H d ltac:(left)). congruence.
    + rewrite IH. split.
      * intros H dir [->|Hin]%elem_of_cons; [exact Hd | apply H, Hin].
      * intros H dir Hin. apply H. right. exact Hin.
Qed.

(** A found path is never the empty string, so the truth test that the
    callers apply to the result only separates [None] from [Some]. *)
Lemma find_executable_in_truthy (paths : list string) (name : string) :
  truthy (find_executable_in pf w paths name) =
  bool_decide (is_Some (find_executable_in pf w paths name)).
Proof.
  destruct (find_executable_in pf w paths name) as [p|] eqn:H; simpl.
  - apply find_executable_in_Some in H as (i & dir & _ & _ & Hok & _).
    unfold isfile in Hok. destruct (String.eqb p EmptyString); [discriminate Hok|].
    reflexivity.
  - reflexivity.
Qed.

(** With the search-path variable unset or empty, the only directory
    scanned is the empty string, whose candidate is the bare name: the
    name resolves when it is itself an executable regular file, seen
    from the working directory. *)
Lemma find_executable_no_PATH (name : string) :
  environ pf !! "PATH" = None ∨ environ pf !! "PATH" = Some EmptyString →
  find_executable pf w name =
    if isfile pf w name && access_x pf w name then Some name else None.
Proof.
  intros H. unfold find_executable, getenv.
  assert (default EmptyString (environ pf !! "PATH") = EmptyString) as ->.
  { destruct H as [-> | ->]; reflexivity. }
  simpl. rewrite path_join_empty. reflexivity.
Qed.

End PathSearchFacts.

(** C5: with the search-path variable unset, [find_executable] does not
    return not-found for every name: it resolves a name that is an
    executable regular file of the working directory, here [prog] in
    [/home/u], although no search directory is configured. *)
Theorem C5_unset_path_resolves_name_in_cwd :
  environ Demo.pf_unset !! "PATH" = None ∧
  find_executable Demo.pf_unset Demo.world "prog" = Some "prog".
Proof. split; vm_compute; reflexivity. Qed.

(** The same name is not found once a search path is set that does not
    hold it. *)
Example find_executable_prog_with_path :
  find_executable Demo.pf Demo.world "prog" = None ∧
  find_executable Demo.pf Demo.world "cat" = Some "/bin/cat".
Proof. split; vm_compute; reflexivity. Qed.

(** ** What the output calls leave unchanged *)

Lemma write_Ok_or_closed (t : stream) (s : string) (w : World) :
  (write t s w).2 = Ok tt ∨ (write t s w).1 = w.
Proof.
  destruct t as [| |fd]; simpl; auto.
  destruct (file_objects w !! fd) as [fo|]; simpl; auto.
  destruct (fo_closed fo); simpl; auto.
Qed.

Lemma write_frame (t : stream) (s : string) (w : World) :
  cwd (write t s w).1 = cwd w ∧
  file_objects (write t s w).1 = file_objects w ∧
  spawned (write t s w).1 = spawned w.
Proof.
  destruct t as [| |fd]; simpl; auto.
  destruct (file_objects w !! fd) as [fo|]; simpl; auto.
  destruct (fo_closed fo); simpl; auto.
Qed.



Lemma print_to_sys_stderr (s : string) (w : World) :
  print s SysStderr w = (set_sys_stderr (sys_stderr w ++ s ++ newline) w, Ok tt).
Proof. reflexivity. Qed.

(** Printing to a target that can be written to adds the line to it
    and changes nothing else. *)
Lemma print_appended (s : string) (t : stream) (w : World) :
  writable w t → ∃ w', print s t w = (w', Ok tt) ∧ appended t (s ++ newline) w w'.
Proof.
  intros Hw. destruct t as [| |fd]; simpl.
  - eexists. split; reflexivity.
  - eexists. split; reflexivity.
  - destruct (Hw fd eq_refl) as (fo & Hfo & Hopen).
    unfold print, write. rewrite Hfo, Hopen.
    eexists. split; [reflexivity|]. exists fo. auto.
Qed.

(** ** The [exit] built-in *)

Lemma decimal_is_digit (s : string) :
  Py.all_chars Py.is_decimal_char s = true → Py.all_chars Py.is_digit_char s = true.
Proof.
  induction s as [|c s IH]; simpl; [reflexivity|].
  intros [Hc Hs]%andb_true_iff. rewrite IH by exact Hs.
  unfold Py.is_digit_char. rewrite Hc. reflexivity.
Qed.

Lemma leading_decimals_all (s : string) :
  Py.all_chars Py.is_decimal_char s = true → Py.leading_decimals s = String.length s.
Proof.
  induction s as [|c s IH]; simpl; [reflexivity|].
  intros [Hc Hs]%andb_true_iff. rewrite Hc, IH by exact Hs. reflexivity.
Qed.

(** One argument made of at most 4300 decimal digits: the process ends
    with its value. *)
Lemma ExitCommand_decimal (a : string) (stdout stderr : stream) (w : World) :
  a ≠ EmptyString → Py.all_chars Py.is_decimal_char a = true →
  (Z.of_nat (String.length a) ≤ Py.int_max_str_digits)%Z →
  ExitCommand_execute [a] stdout stderr w = (w, Raise (SystemExit (Py.decimal_value 0 a))).
Proof.
  intros Hne Hdec Hlen. unfold ExitCommand_execute, Py.isdigit, int_, Py.int.
  rewrite (decimal_is_digit a Hdec), Hdec, (leading_decimals_all a Hdec).
  destruct (Z.ltb_spec Py.int_max_str_digits (Z.of_nat (String.length a))); [lia|].
  destruct (String.eqb_spec a EmptyString); [contradiction|]. reflexivity.
Qed.

(** One argument made of more than 4300 decimal digits: [int] refuses
    it and the process does not end. *)
Lemma ExitCommand_too_long (a : string) (stdout stderr : stream) (w : World) :
  Py.all_chars Py.is_decimal_char a = true →
  (Py.int_max_str_digits < Z.of_nat (String.length a))%Z →
  ExitCommand_execute [a] stdout stderr w =
    (w, Raise (ValueError
                 ("Exceeds the limit (4300 digits) for integer string conversion: value has " ++
                  Py.str_of_nat (String.length a) ++
                  " digits; use sys.set_int_max_str_digits() to increase the limit"))).
Proof.
  intros Hdec Hlen. unfold ExitCommand_execute, Py.isdigit, int_, Py.int.
  rewrite (decimal_is_digit a Hdec), (leading_decimals_all a Hdec).
  destruct (Z.ltb_spec Py.int_max_str_digits (Z.of_nat (String.length a))); [|lia].
  destruct (String.eqb_spec a EmptyString) as [->|_]; [simpl in Hlen; unfold Py.int_max_str_digits in Hlen; lia|].
  reflexivity.
Qed.

(** No argument, several arguments, or one argument that [isdigit]
    rejects: the process ends with status 0. *)
Lemma ExitCommand_zero (args : list string) (stdout stderr : stream) (w : World) :
  (length args ≠ 1 ∨ ∃ a, args = [a] ∧ Py.isdigit a = false) →
  ExitCommand_execute args stdout stderr w = (w, Raise (SystemExit 0)).
Proof.
  intros [Hlen | (a & -> & Ha)]; unfold ExitCommand_execute.
  - destruct args as [|a [|b args]]; simpl in *; try reflexivity. lia.
  - rewrite Ha. reflexivity.
Qed.

Example exit_7 :
  main Demo.pf ["exit 7"] Demo.world =
    (set_sys_stdout "$ " Demo.world, Raise (SystemExit 7)).
Proof. vm_compute. reflexivity. Qed.

Example exit_abc :
  (main Demo.pf ["exit abc"] Demo.world).2 = Raise (SystemExit 0) ∧
  (main Demo.pf ["exit"] Demo.world).2 = Raise (SystemExit 0) ∧
  (main Demo.pf ["exit 1 2"] Demo.world).2 = Raise (SystemExit 0).
Proof. repeat split; vm_compute; reflexivity. Qed.

(** C8: given the single argument made of the character U+00B2
    (superscript two), which [isdigit] accepts and [int] rejects, the
    [exit] built-in raises [ValueError] instead of ending the process;
    the main loop reports it and goes on to the next prompt. *)
Theorem C8_exit_superscript_digit_does_not_exit :
  let arg := String "178"%char EmptyString in
  Py.isdigit arg = true ∧
  (∀ stdout stderr w,
     ExitCommand_execute [arg] stdout stderr w =
       (w, Raise (ValueError ("invalid literal for int() with base 10: '" ++ arg ++ "'")))) ∧
  main Demo.pf ["exit " ++ arg] Demo.world =
    (set_sys_stderr ("Error: invalid literal for int() with base 10: '" ++ arg ++ "'" ++ newline)
       (set_sys_stdout "$ $ " Demo.world), Ok tt).
Proof. repeat split; vm_compute; reflexivity. Qed.

(** ** The [cd] built-in *)

(** C9: a permission failure does not always yield [Permission
    denied].  The directory [/locked] cannot be searched, so that
    [/locked/sub] can neither be examined ([os.path.isdir] answers
    [False]) nor entered ([os.chdir] would raise [PermissionError]); on
    [cd /locked/sub] the test of [os.path.isdir] decides and the shell
    writes [cd: /locked/sub: No such file or directory]; the clause
    [except PermissionError] is never reached.  On [/locked] itself,
    which can be examined, it is. *)
Theorem C9_cd_lookup_refused_reports_no_such_file :
  chdir_error Demo.pf (realpath Demo.pf (cwd Demo.world) "/locked/sub") =
    Some (PermissionError "[Errno 13] Permission denied") ∧
  isdir Demo.pf Demo.world "/locked/sub" = false ∧
  execute Demo.pf main_registry "cd /locked/sub" Demo.world =
    (set_sys_stderr ("cd: /locked/sub: No such file or directory" ++ newline) Demo.world,
     Ok tt) ∧
  execute Demo.pf main_registry "cd /locked" Demo.world =
    (set_sys_stderr ("cd: /locked: Permission denied" ++ newline) Demo.world, Ok tt).
Proof. repeat split; vm_compute; reflexivity. Qed.

Example cd_then_pwd :
  sys_stdout (main Demo.pf ["cd /bin"; "pwd"; "cd ~"; "pwd"] Demo.world).1 =
    "$ $ /bin" ++ newline ++ "$ $ /home/u" ++ newline ++ "$ ".
Proof. vm_compute. reflexivity. Qed.

(** ** Commands that are not found *)



(** The whole line [nosuch 2> err.txt]: the message is in the file, the
    inherited stderr is empty, the file object is closed. *)
Example not_found_redirected :
  let r := execute Demo.pf main_registry "nosuch 2> err.txt" Demo.world in
  r.2 = Ok tt ∧
  files r.1 !! "/home/u/err.txt" = Some ("nosuch: command not found" ++ newline) ∧
  sys_stderr r.1 = EmptyString ∧ spawned r.1 = [] ∧
  file_objects r.1 = [{| fo_path := "/home/u/err.txt"; fo_mode := Truncate; fo_closed := true |}].
Proof. vm_compute. repeat split; reflexivity. Qed.

(** ** The redirection steps of [execute] *)

Section RedirectionFacts.
Context (pf : Platform).

(** [open_] either fails, changing nothing, or creates a new file
    object at the end of the table and the file under its canonical
    path, emptied in mode [Truncate]. *)
Lemma open_cases (file : string) (mode : open_mode) (w : World) :
  (∃ msg, open_ pf file mode w = (w, Raise (OSError msg)) ∧
          (file = EmptyString ∨ open_error pf (realpath pf (cwd w) file) = Some msg)) ∨
  (file ≠ EmptyString ∧ open_error pf (realpath pf (cwd w) file) = None ∧
   ∃ w1, open_ pf file mode w = (w1, Ok (FileObj (length (file_objects w)))) ∧
     file_objects w1 = (file_objects w ++
       [{| fo_path := realpath pf (cwd w) file; fo_mode := mode; fo_closed := false |}])%list ∧
     files w1 = <[realpath pf (cwd w) file :=
                   match mode with
                   | Truncate => EmptyString
                   | Append => default EmptyString (files w !! realpath pf (cwd w) file)
                   end]> (files w) ∧
     cwd w1 = cwd w ∧ sys_stdout w1 = sys_stdout w ∧
     sys_stderr w1 = sys_stderr w ∧ spawned w1 = spawned w).
Proof.
  unfold open_. destruct (String.eqb_spec file EmptyString) as [->|Hne].
  - left. eexists. split; [reflexivity | left; reflexivity].
  - destruct (open_error pf (realpath pf (cwd w) file)) as [msg|] eqn:Herr.
    + left. exists msg. split; [reflexivity | right; reflexivity].
    + right. split; [exact Hne|]. split; [reflexivity|].
      eexists. split; [reflexivity|]. simpl. repeat split; reflexivity.
Qed.

(** One [try] block, once its operator is found at [i]. *)
Lemma redirection_at (i : nat) (parts sliced : list string) (mode : open_mode)
    (what : string) (w : World) :
  redirection pf (ret i) parts sliced mode what w =
    match parts !! (i + 1) with
    | None =>
        (set_sys_stderr
           (sys_stderr w ++
            ("Error handling " ++ what ++ " redirection: " ++ "list index out of range") ++
            newline) w, Ok None)
    | Some file =>
        match open_ pf file mode w with
        | (w1, Ok target) => (w1, Ok (Some (take i sliced, target)))
        | (w1, Raise e) =>
            (set_sys_stderr
               (sys_stderr w1 ++
                ("Error handling " ++ what ++ " redirection: " ++ str e) ++ newline) w1,
             Ok None)
        end
    end.
Proof.
  unfold redirection, try_except, bind, ret, subscript.
  destruct (parts !! (i + 1)) as [file|]; simpl; [|reflexivity].
  destruct (open_cases file mode w) as [(msg & -> & _) | (_ & _ & w1 & -> & _)];
    reflexivity.
Qed.

(** The stdout step is the [try] block of the honoured stdout operator. *)
Lemma stdout_redirection_honoured (parts : list string) (w : World) :
  stdout_redirection pf parts w =
    match Honoured.stdout parts with
    | None => (w, Ok (Some (parts, SysStdout)))
    | Some (i, Append) => redirection pf (ret i) parts parts Append "stdout append" w
    | Some (i, Truncate) => redirection pf (ret i) parts parts Truncate "stdout" w
    end.
Proof.
  unfold stdout_redirection, Honoured.stdout, index_either, list_index.
  destruct (Py.contains parts ">>") eqn:H1.
  { destruct (index_contains _ _ H1) as [i ->]. reflexivity. }
  rewrite (index_not_contains _ _ H1).
  destruct (Py.contains parts "1>>") eqn:H2.
  { destruct (index_contains _ _ H2) as [i ->]. reflexivity. }
  rewrite (index_not_contains _ _ H2). simpl.
  destruct (Py.contains parts ">") eqn:H3.
  { destruct (index_contains _ _ H3) as [i ->]. reflexivity. }
  rewrite (index_not_contains _ _ H3).
  destruct (Py.contains parts "1>") eqn:H4.
  { destruct (index_contains _ _ H4) as [i ->]. reflexivity. }
  rewrite (index_not_contains _ _ H4). reflexivity.
Qed.

Lemma stderr_redirection_honoured (parts command_parts : list string) (w : World) :
  stderr_redirection pf parts command_parts w =
    match Honoured.stderr parts with
    | None => (w, Ok (Some (command_parts, SysStderr)))
    | Some (j, Append) => redirection pf (ret j) parts command_parts Append "stderr append" w
    | Some (j, Truncate) => redirection pf (ret j) parts command_parts Truncate "stderr" w
    end.
Proof.
  unfold stderr_redirection, Honoured.stderr, list_index.
  destruct (Py.contains parts "2>>") eqn:H1.
  { destruct (index_contains _ _ H1) as [i ->]. reflexivity. }
  rewrite (index_not_contains _ _ H1).
  destruct (Py.contains parts "2>") eqn:H2.
  { destruct (index_contains _ _ H2) as [i ->]. reflexivity. }
  rewrite (index_not_contains _ _ H2). reflexivity.
Qed.

(** [execute] is its two redirection steps followed, when neither
    returned early, by the dispatch and the closing of the targets. *)
Lemma execute_parts_eq (self : CommandRegistry) (parts : list string) (w : World) :
  execute_parts pf self parts w =
    match redirections pf parts w with
    | (w', Ok (Some (command_parts, stdout_target, stderr_target))) =>
        dispatch_then_close pf self command_parts stdout_target stderr_target w'
    | (w', Ok None) => (w', Ok tt)
    | (w', Raise e) => (w', Raise e)
    end.
Proof.
  unfold execute_parts, redirections, bind.
  destruct (stdout_redirection pf parts w) as [w1 [[[cp out]|]|e]]; try reflexivity.
  destruct (stderr_redirection pf parts cp w1) as [w2 [[[cp' err]|]|e]]; reflexivity.
Qed.

(** What a [try] block that does not return early has done. *)
Lemma redirection_Some (i : nat) (parts sliced : list string) (mode : open_mode)
    (what : string) (w w1 : World) (cp : list string) (target : stream) :
  redirection pf (ret i) parts sliced mode what w = (w1, Ok (Some (cp, target))) →
  cp = take i sliced ∧
  ∃ file,
    parts !! (i + 1) = Some file ∧ file ≠ EmptyString ∧
    open_error pf (realpath pf (cwd w) file) = None ∧
    open_ pf file mode w = (w1, Ok target) ∧
    target = FileObj (length (file_objects w)) ∧
    file_objects w1 = (file_objects w ++
      [{| fo_path := realpath pf (cwd w) file; fo_mode := mode; fo_closed := false |}])%list ∧
    cwd w1 = cwd w.
Proof.
  rewrite redirection_at. destruct (parts !! (i + 1)) as [file|]; [|discriminate].
  destruct (open_cases file mode w)
    as [(msg & Ho & _) | (Hne & Herr & w1' & Ho & Hobj & _ & Hcwd & _)];
    rewrite Ho; [discriminate|].
  intros [= <- <- <-]. split; [reflexivity|].
  exists file. repeat split; auto.
Qed.

(** A [try] block that returns early reports on the inherited stderr
    and changes nothing else. *)
Lemma redirection_None (i : nat) (parts sliced : list string) (mode : open_mode)
    (what : string) (w w1 : World) :
  redirection pf (ret i) parts sliced mode what w = (w1, Ok None) →
  ∃ msg, w1 = set_sys_stderr (sys_stderr w ++ ("Error handling " ++ msg) ++ newline) w.
Proof.
  rewrite redirection_at. destruct (parts !! (i + 1)) as [file|].
  - destruct (open_cases file mode w) as [(msg & Ho & _) | (_ & _ & w1' & Ho & _)];
      rewrite Ho; [|discriminate].
    intros [= <-]. eexists. reflexivity.
  - intros [= <-]. eexists. reflexivity.
Qed.

Lemma redirection_not_Raise (i : nat) (parts sliced : list string) (mode : open_mode)
    (what : string) (w w1 : World) (e : exn) :
  redirection pf (ret i) parts sliced mode what w ≠ (w1, Raise e).
Proof.
  rewrite redirection_at. destruct (parts !! (i + 1)) as [file|]; [|discriminate].
  destruct (open_cases file mode w) as [(msg & Ho & _) | (_ & _ & w1' & Ho & _)];
    rewrite Ho; discriminate.
Qed.

End RedirectionFacts.

(** ** What a dispatched command leaves unchanged *)

(** Any relation between worlds that is reflexive, transitive and kept
    by each elementary change a built-in can make (a write to a file or
    to an inherited stream, a change of directory) and by the run of a
    child process is kept by [_execute_command], whether the command
    returns or raises. *)
Section Frame.
Context (pf : Platform) (R : World → World → Prop).
Context (R_refl : ∀ w, R w w).
Context (R_trans : ∀ a b c, R a b → R b c → R a c).
Context (R_files : ∀ w p s, R w (set_files (<[p := s]> (files w)) w)).
Context (R_stdout : ∀ w s, R w (set_sys_stdout s w)).
Context (R_stderr : ∀ w s, R w (set_sys_stderr s w)).
Context (R_cwd : ∀ w d, R w (set_cwd d w)).
Context (R_child : ∀ argv out err w, R w (subprocess_run pf argv out err w).1).

Lemma write_keeps (t : stream) (s : string) (w : World) : R w (write t s w).1.
Proof.
  destruct t as [| |fd]; simpl; auto.
  destruct (file_objects w !! fd) as [fo|]; simpl; auto.
  destruct (fo_closed fo); simpl; auto.
Qed.

Lemma print_keeps (s : string) (t : stream) (w : World) : R w (print s t w).1.
Proof. apply write_keeps. Qed.

Lemma bind_keeps {A B} (m : M A) (k : A → M B) (w : World) :
  (∀ w, R w (m w).1) → (∀ a w, R w (k a w).1) → R w (bind m k w).1.
Proof.
  intros Hm Hk. unfold bind. specialize (Hm w).
  destruct (m w) as [w1 [a|e]]; simpl in *; [|exact Hm].
  eapply R_trans; [exact Hm | apply Hk].
Qed.

Lemma try_except_keeps {A} (m : M A) (catches : exn → bool) (h : exn → M A) (w : World) :
  (∀ w, R w (m w).1) → (∀ e w, R w (h e w).1) → R w (try_except m catches h w).1.
Proof.
  intros Hm Hh. unfold try_except. specialize (Hm w).
  destruct (m w) as [w1 [a|e]]; simpl in *; [exact Hm|].
  destruct (catches e); simpl; [|exact Hm].
  eapply R_trans; [exact Hm | apply Hh].
Qed.

Lemma chdir_keeps (d : string) (w : World) : R w (chdir pf d w).1.
Proof. unfold chdir. destruct (chdir_error pf _); simpl; auto. Qed.

Lemma Command_execute_keeps (registry : CommandRegistry) (c : Command)
    (args : list string) (stdout stderr : stream) (w : World) :
  R w (Command_execute pf registry c args stdout stderr w).1.
Proof.
  destruct c; simpl.
  - apply print_keeps.
  - unfold ExitCommand_execute, sys_exit, int_, raise.
    destruct args as [|a [|b args]]; simpl; auto.
    destruct (Py.isdigit a); simpl; auto.
    unfold bind. destruct (Py.int a); simpl; auto.
  - unfold TypeCommand_execute. destruct args as [|name args]; [apply print_keeps|].
    destruct (bool_decide _); [apply print_keeps|].
    destruct (truthy _); apply print_keeps.
  - apply print_keeps.
  - unfold CdCommand_execute. destruct args as [|a [|b args]]; try apply print_keeps.
    destruct (isdir pf w _); [|apply print_keeps].
    apply try_except_keeps; intros; [apply chdir_keeps | apply print_keeps].
Qed.

Lemma run_external_command_keeps (name : string) (args : list string)
    (stdout stderr : stream) (w : World) :
  R w (run_external_command pf name args stdout stderr w).1.
Proof.
  unfold run_external_command. destruct (truthy _); [|apply print_keeps].
  apply try_except_keeps; intros; [apply R_child | apply print_keeps].
Qed.

Lemma _execute_command_keeps (self : CommandRegistry) (parts : list string)
    (stdout stderr : stream) (w : World) :
  R w (_execute_command pf self parts stdout stderr w).1.
Proof.
  unfold _execute_command. destruct parts as [|name args]; simpl; auto.
  destruct (commands self !! name) as [c|].
  - apply Command_execute_keeps.
  - apply run_external_command_keeps.
Qed.

End Frame.

(** The run of a child keeps what every change of the files, of the
    inherited streams and of the list of spawned processes keeps. *)
Lemma subprocess_run_keeps (pf : Platform) (R : World → World → Prop) :
  (∀ w, R w w) → (∀ a b c, R a b → R b c → R a c) →
  (∀ w m, R w (set_files m w)) →
  (∀ w s, R w (set_sys_stdout s w)) → (∀ w s, R w (set_sys_stderr s w)) →
  (∀ w l, R w (set_spawned l w)) →
  ∀ argv out err w, R w (subprocess_run pf argv out err w).1.
Proof.
  intros R_refl R_trans R_files R_stdout R_stderr R_spawned argv out err w.
  unfold subprocess_run.
  destruct (run_child pf argv (cwd w) (files w)) as [e|[[o e] child_files]]; simpl; auto.
  eapply R_trans; [apply R_spawned|].
  apply (bind_keeps R R_trans); [intros; apply write_keeps; auto|]. intros _ w1.
  apply (bind_keeps R R_trans); [intros; apply write_keeps; auto|]. intros _ w2.
  apply R_files.
Qed.

(** No command opens or closes a file object. *)
Lemma _execute_command_file_objects (pf : Platform) (self : CommandRegistry)
    (parts : list string) (stdout stderr : stream) (w : World) :
  file_objects (_execute_command pf self parts stdout stderr w).1 = file_objects w.
Proof.
  apply (_execute_command_keeps pf (fun a b => file_objects b = file_objects a));
    try reflexivity.
  - intros a b c H1 H2. congruence.
  - apply (subprocess_run_keeps pf (fun a b => file_objects b = file_objects a));
      try reflexivity.
    intros a b c H1 H2. congruence.
Qed.

(** ** Files survive unless a child process runs *)

Lemma files_survive_refl (w : World) : files_survive w w.
Proof. split; [reflexivity | auto]. Qed.

Lemma files_survive_trans (a b c : World) :
  files_survive a b → files_survive b c → files_survive a c.
Proof.
  intros [[k1 Hk1] H1] [[k2 Hk2] H2]. split.
  - exists (k1 ++ k2)%list. rewrite Hk2, Hk1, <- (assoc_L (++)). reflexivity.
  - intros Heq p Hp.
    assert (k1 = [] ∧ k2 = []) as [-> ->].
    { rewrite Hk2, Hk1, <- (assoc_L (++)) in Heq.
      apply (f_equal length) in Heq. rewrite !length_app in Heq.
      split; apply length_zero_iff_nil; lia. }
    rewrite app_nil_r in Hk1, Hk2. apply H2; [exact Hk2|]. apply H1; [exact Hk1|]. exact Hp.
Qed.

(** A change that leaves the spawned list and removes no file. *)
Lemma files_survive_same (w a : World) :
  spawned a = spawned w → (∀ p, is_Some (files w !! p) → is_Some (files a !! p)) →
  files_survive w a.
Proof. intros Hs Hf. split; [rewrite Hs; reflexivity | intros _; exact Hf]. Qed.

Lemma files_survive_insert (w : World) (p s : string) :
  files_survive w (set_files (<[p := s]> (files w)) w).
Proof.
  apply files_survive_same; [reflexivity|]. intros q Hq. simpl.
  destruct (decide (p = q)) as [->|Hne].
  - rewrite lookup_insert_eq. eauto.
  - rewrite lookup_insert_ne by exact Hne. exact Hq.
Qed.

Lemma write_spawned (t : stream) (s : string) (w : World) :
  spawned (write t s w).1 = spawned w.
Proof. apply write_frame. Qed.

(** A child that ran is on the list of spawned processes. *)
Lemma subprocess_run_ran (pf : Platform) (argv : list string) (out err : stream)
    (w : World) (o e : string) (child_files : gmap string string → gmap string string) :
  run_child pf argv (cwd w) (files w) = inr (o, e, child_files) →
  spawned (subprocess_run pf argv out err w).1 = (spawned w ++ [(argv, out, err)])%list.
Proof.
  intros Hchild. unfold subprocess_run. rewrite Hchild. unfold bind.
  set (w0 := set_spawned (spawned w ++ [(argv, out, err)]) w).
  pose proof (write_spawned out o w0) as H1.
  destruct (write out o w0) as [w1 [[]|e1]]; simpl in *; [|exact H1].
  pose proof (write_spawned err e w1) as H2.
  destruct (write err e w1) as [w2 [[]|e2]]; simpl in *; congruence.
Qed.

Lemma subprocess_run_spawned (pf : Platform) (argv : list string) (out err : stream)
    (w : World) :
  spawned (subprocess_run pf argv out err w).1 = spawned w ∧
    files (subprocess_run pf argv out err w).1 = files w ∨
  spawned (subprocess_run pf argv out err w).1 = (spawned w ++ [(argv, out, err)])%list.
Proof.
  destruct (run_child pf argv (cwd w) (files w)) as [e|[[o e] child_files]] eqn:Hchild.
  - left. unfold subprocess_run. rewrite Hchild. split; reflexivity.
  - right. eapply subprocess_run_ran, Hchild.
Qed.

Lemma subprocess_run_files_survive (pf : Platform) (argv : list string)
    (out err : stream) (w : World) :
  files_survive w (subprocess_run pf argv out err w).1.
Proof.
  destruct (subprocess_run_spawned pf argv out err w) as [[Hs Hf] | Hs].
  - apply files_survive_same; [exact Hs | rewrite Hf; auto].
  - split; [rewrite Hs; apply prefix_app_r; reflexivity|].
    intros Heq. rewrite Hs in Heq. apply (f_equal length) in Heq.
    rewrite length_app in Heq. simpl in Heq. lia.
Qed.

(** No command removes a file, unless it is an external program that
    was run. *)
Lemma _execute_command_files_survive (pf : Platform) (self : CommandRegistry)
    (parts : list string) (stdout stderr : stream) (w : World) :
  files_survive w (_execute_command pf self parts stdout stderr w).1.
Proof.
  apply (_execute_command_keeps pf files_survive).
  - apply files_survive_refl.
  - apply files_survive_trans.
  - apply files_survive_insert.
  - intros; apply files_survive_same; auto.
  - intros; apply files_survive_same; auto.
  - intros; apply files_survive_same; auto.
  - apply subprocess_run_files_survive.
Qed.

Lemma close_files (t : stream) (w : World) : files (close t w).1 = files w.
Proof.
  destruct t as [| |fd]; simpl; try reflexivity.
  destruct (file_objects w !! fd); reflexivity.
Qed.

Lemma close_unless_files (inherited t : stream) (w : World) :
  files (close_unless inherited t w).1 = files w.
Proof.
  unfold close_unless. destruct (bool_decide _); [reflexivity | apply close_files].
Qed.

Lemma close_unless_Ok (inherited t : stream) (w : World) :
  (close_unless inherited t w).2 = Ok tt.
Proof.
  unfold close_unless. destruct (bool_decide _); [reflexivity|].
  destruct t as [| |fd]; simpl; try reflexivity.
  destruct (file_objects w !! fd); reflexivity.
Qed.

Lemma close_unless_spawned (inherited t : stream) (w : World) :
  spawned (close_unless inherited t w).1 = spawned w.
Proof.
  unfold close_unless. destruct (bool_decide _); [reflexivity|].
  destruct t as [| |fd]; simpl; try reflexivity.
  destruct (file_objects w !! fd); reflexivity.
Qed.

Lemma close_unless_files_survive (inherited t : stream) (w : World) :
  files_survive w (close_unless inherited t w).1.
Proof.
  apply files_survive_same; [apply close_unless_spawned|].
  rewrite close_unless_files. auto.
Qed.

(** The end of [execute] removes no file either. *)
Lemma dispatch_then_close_files_survive (pf : Platform) (self : CommandRegistry)
    (cp : list string) (out err : stream) (w : World) :
  files_survive w (dispatch_then_close pf self cp out err w).1.
Proof.
  unfold dispatch_then_close, bind.
  pose proof (_execute_command_files_survive pf self cp out err w) as H.
  destruct (_execute_command pf self cp out err w) as [w1 [[]|e]]; simpl in *; [|exact H].
  pose proof (close_unless_files_survive SysStdout out w1) as H1.
  pose proof (close_unless_Ok SysStdout out w1) as H1'.
  destruct (close_unless SysStdout out w1) as [w2 r2]; simpl in *. subst r2.
  eapply files_survive_trans; [exact H|].
  eapply files_survive_trans; [exact H1 | apply close_unless_files_survive].
Qed.

(** ** Which operators decide the command and its targets *)

Section Honouring.
Context (pf : Platform).

Lemma open_Ok_frame (file : string) (mode : open_mode) (w w1 : World) (t : stream) :
  open_ pf file mode w = (w1, Ok t) →
  sys_stdout w1 = sys_stdout w ∧ sys_stderr w1 = sys_stderr w ∧ spawned w1 = spawned w ∧
  files w1 = <[realpath pf (cwd w) file :=
                match mode with
                | Truncate => EmptyString
                | Append => default EmptyString (files w !! realpath pf (cwd w) file)
                end]> (files w).
Proof.
  destruct (open_cases pf file mode w)
    as [(msg & -> & _) | (_ & _ & w1' & -> & _ & Hf & _ & Ho & He & Hs)];
    [discriminate|].
  intros [= <- <-]. auto.
Qed.

Lemma stdout_redirection_Some (parts : list string) (w w1 : World)
    (cp : list string) (out : stream) :
  stdout_redirection pf parts w = (w1, Ok (Some (cp, out))) →
  cp = match Honoured.stdout parts with Some (i, _) => take i parts | None => parts end ∧
  Honoured.designates pf w w1 parts (Honoured.stdout parts) SysStdout out ∧
  cwd w1 = cwd w ∧ sys_stdout w1 = sys_stdout w ∧ sys_stderr w1 = sys_stderr w ∧
  spawned w1 = spawned w ∧
  ∃ l, file_objects w1 = (file_objects w ++ l)%list.
Proof.
  rewrite stdout_redirection_honoured.
  destruct (Honoured.stdout parts) as [[i mode]|]; simpl.
  - intros H.
    assert (redirection pf (ret i) parts parts mode
              (match mode with Append => "stdout append" | Truncate => "stdout" end) w
            = (w1, Ok (Some (cp, out)))) as H' by (destruct mode; exact H).
    apply redirection_Some in H' as (-> & file & Hf & _ & _ & Ho & -> & Hobj & Hcwd).
    apply open_Ok_frame in Ho as (H1 & H2 & H3 & _).
    repeat split; auto.
    + exists file, (length (file_objects w)). repeat split; auto.
      rewrite Hobj. apply list_lookup_middle. reflexivity.
    + eexists. exact Hobj.
  - intros [= <- <- <-]. repeat split; auto. exists []. rewrite app_nil_r. reflexivity.
Qed.

Lemma stderr_redirection_Some (parts sliced : list string) (w w1 : World)
    (cp : list string) (err : stream) :
  stderr_redirection pf parts sliced w = (w1, Ok (Some (cp, err))) →
  cp = match Honoured.stderr parts with Some (j, _) => take j sliced | None => sliced end ∧
  Honoured.designates pf w w1 parts (Honoured.stderr parts) SysStderr err ∧
  cwd w1 = cwd w ∧ sys_stdout w1 = sys_stdout w ∧ sys_stderr w1 = sys_stderr w ∧
  spawned w1 = spawned w ∧
  ∃ l, file_objects w1 = (file_objects w ++ l)%list.
Proof.
  rewrite stderr_redirection_honoured.
  destruct (Honoured.stderr parts) as [[j mode]|]; simpl.
  - intros H.
    assert (redirection pf (ret j) parts sliced mode
              (match mode with Append => "stderr append" | Truncate => "stderr" end) w
            = (w1, Ok (Some (cp, err)))) as H' by (destruct mode; exact H).
    apply redirection_Some in H' as (-> & file & Hf & _ & _ & Ho & -> & Hobj & Hcwd).
    apply open_Ok_frame in Ho as (H1 & H2 & H3 & _).
    repeat split; auto.
    + exists file, (length (file_objects w)). repeat split; auto.
      rewrite Hobj. apply list_lookup_middle. reflexivity.
    + eexists. exact Hobj.
  - intros [= <- <- <-]. repeat split; auto. exists []. rewrite app_nil_r. reflexivity.
Qed.

(** Neither step raises: every failure inside them is caught. *)
Lemma stdout_redirection_not_Raise (parts : list string) (w w1 : World) (e : exn) :
  stdout_redirection pf parts w ≠ (w1, Raise e).
Proof.
  rewrite stdout_redirection_honoured.
  destruct (Honoured.stdout parts) as [[i []]|]; try apply redirection_not_Raise.
  discriminate.
Qed.

Lemma stderr_redirection_not_Raise (parts sliced : list string) (w w1 : World) (e : exn) :
  stderr_redirection pf parts sliced w ≠ (w1, Raise e).
Proof.
  rewrite stderr_redirection_honoured.
  destruct (Honoured.stderr parts) as [[i []]|]; try apply redirection_not_Raise.
  discriminate.
Qed.

Lemma designates_later (w w1 w2 : World) (parts : list string)
    (h : option (nat * open_mode)) (inherited t : stream) (l : list file_object) :
  file_objects w2 = (file_objects w1 ++ l)%list →
  Honoured.designates pf w w1 parts h inherited t →
  Honoured.designates pf w w2 parts h inherited t.
Proof.
  intros Hl. destruct h as [[i mode]|]; simpl; [|auto].
  intros (file & fd & Hf & -> & Hfd). exists file, fd. repeat split; auto.
  rewrite Hl. apply lookup_app_l_Some. exact Hfd.
Qed.

End Honouring.

(** The two steps behind a pair of redirections that reached the
    dispatch. *)
Lemma redirections_Some (pf : Platform) (parts : list string)
    (w w' : World) (cp : list string) (out err : stream) :
  redirections pf parts w = (w', Ok (Some (cp, out, err))) →
  ∃ w1 cp1,
    stdout_redirection pf parts w = (w1, Ok (Some (cp1, out))) ∧
    stderr_redirection pf parts cp1 w1 = (w', Ok (Some (cp, err))).
Proof.
  unfold redirections, bind.
  destruct (stdout_redirection pf parts w) as [w1 [[[cp1 out1]|]|e]] eqn:H1;
    [|discriminate|discriminate].
  destruct (stderr_redirection pf parts cp1 w1) as [w2 [[[cp2 err2]|]|e]] eqn:H2;
    [|discriminate|discriminate].
  intros [= <- <- <- <-]. eauto.
Qed.

(** The targets handed to the dispatch are the ones the honoured
    operators designate. *)
Lemma redirections_targets (pf : Platform) (parts : list string)
    (w w' : World) (cp : list string) (out err : stream) :
  redirections pf parts w = (w', Ok (Some (cp, out, err))) →
  Honoured.designates pf w w' parts (Honoured.stdout parts) SysStdout out ∧
  Honoured.designates pf w w' parts (Honoured.stderr parts) SysStderr err.
Proof.
  intros (w1 & cp1 & H1 & H2)%redirections_Some.
  apply stdout_redirection_Some in H1 as (_ & Hd1 & Hcwd1 & _ & _ & _ & l1 & Hl1).
  apply stderr_redirection_Some in H2 as (_ & Hd2 & _ & _ & _ & _ & l2 & Hl2).
  split.
  - eapply designates_later; [exact Hl2 | exact Hd1].
  - destruct (Honoured.stderr parts) as [[j mj]|]; simpl in *; [|exact Hd2].
    rewrite <- Hcwd1. exact Hd2.
Qed.

(** C1 (as amended): when [execute] reaches the dispatch, the command
    argument vector is the tokens before the earlier of the two
    honoured operators, and each class's target is an open file object
    on the file named by the token after its honoured operator, in that
    operator's mode.  The honoured stdout operator is the first [>>] if
    there is one, else the first [1>>], else the first [>], else the
    first [1>]; the honoured stderr operator is the first [2>>] if there
    is one, else the first [2>]. *)
Theorem C1_honoured_operators_decide (pf : Platform) (parts : list string)
    (w w' : World) (cp : list string) (out err : stream) :
  redirections pf parts w = (w', Ok (Some (cp, out, err))) →
  cp = Honoured.command_args parts ∧
  Honoured.designates pf w w' parts (Honoured.stdout parts) SysStdout out ∧
  Honoured.designates pf w w' parts (Honoured.stderr parts) SysStderr err.
Proof.
  intros Hred. split; [|exact (redirections_targets pf parts w w' cp out err Hred)].
  apply redirections_Some in Hred as (w1 & cp1 & H1 & H2).
  apply stdout_redirection_Some in H1 as (-> & _).
  apply stderr_redirection_Some in H2 as (-> & _).
  unfold Honoured.command_args.
  destruct (Honoured.stdout parts) as [[i mi]|], (Honoured.stderr parts) as [[j mj]|];
    try reflexivity.
  rewrite take_take, Nat.min_comm. reflexivity.
Qed.

Lemma C1_honoured_operators_decide_witness :
  let parts := ["echo"; "a"; ">"; "f"; ">>"; "g"; "2>"; "e"] in
  let w' := (redirections Demo.pf parts Demo.world).1 in
  Honoured.command_args parts = ["echo"; "a"; ">"; "f"] ∧
  (["echo"; "a"; ">"; "f"] = Honoured.command_args parts ∧
   Honoured.designates Demo.pf Demo.world w' parts (Honoured.stdout parts) SysStdout (FileObj 0) ∧
   Honoured.designates Demo.pf Demo.world w' parts (Honoured.stderr parts) SysStderr (FileObj 1)).
Proof.
  intros parts w'. split; [reflexivity|].
  apply (C1_honoured_operators_decide Demo.pf parts Demo.world w').
  vm_compute. reflexivity.
Defined.

(** C1 as stated fails on [echo a > f >> g]: the tokens before the
    earliest operator are [echo a] and the first stdout operator is the
    [>] before [f], but [execute] hands [echo a > f] to the dispatch and
    its stdout target is opened on [g] in append mode. *)
Lemma C1_counterexample :
  let parts := ["echo"; "a"; ">"; "f"; ">>"; "g"] in
  Claimed.command_args parts = ["echo"; "a"] ∧
  Claimed.first_of Claimed.stdout_operators parts = Some (2, Truncate) ∧
  ∃ w' cp out err,
    redirections Demo.pf parts Demo.world = (w', Ok (Some (cp, out, err))) ∧
    cp = ["echo"; "a"; ">"; "f"] ∧
    cp ≠ Claimed.command_args parts ∧
    file_objects w' = [{| fo_path := "/home/u/g"; fo_mode := Append; fo_closed := false |}] ∧
    ¬ Honoured.designates Demo.pf Demo.world w' parts
        (Claimed.first_of Claimed.stdout_operators parts) SysStdout out.
Proof.
  intros parts. split; [reflexivity|]. split; [reflexivity|].
  eexists _, _, _, _. split; [vm_compute; reflexivity|].
  split; [reflexivity|]. split; [discriminate|]. split; [vm_compute; reflexivity|].
  intros (file & fd & Hf & Hout & Hfd).
  injection Hout as <-. vm_compute in Hfd. discriminate Hfd.
Qed.

(** ** Where the honoured operators are the first ones *)

(** When each class occurs with one operator only (possibly several
    times), the honoured operator of the class is its first operator
    and the command is what precedes the earliest operator: on such
    token sequences [execute] follows the policy in the words of the
    specification. *)
Section Unmixed.

Lemma list_find_fst_cons (P : string → Prop) `{!∀ x, Decision (P x)}
    (x : string) (l : list string) :
  fst <$> list_find P (x :: l) =
    if decide (P x) then Some 0 else S <$> (fst <$> list_find P l).
Proof.
  simpl. destruct (decide (P x)); [reflexivity|].
  destruct (list_find P l) as [[i y]|]; reflexivity.
Qed.

Lemma index_list_find (l : list string) (x : string) :
  Py.index l x = fst <$> list_find (fun t => t = x) l.
Proof.
  induction l as [|y l IH]; [reflexivity|].
  rewrite list_find_fst_cons. simpl.
  destruct (String.eqb_spec y x) as [->|Hne].
  - rewrite decide_True by reflexivity. reflexivity.
  - rewrite decide_False by exact Hne. rewrite IH. reflexivity.
Qed.

(** In a class that occurs with the operator [op] only, the first
    token of the class is the first [op]. *)
Lemma list_find_class (class : list string) (op : string) (parts : list string) :
  op ∈ class →
  (∀ t, t ∈ parts → t ∈ class → t = op) →
  list_find (fun t => t ∈ class) parts = list_find (fun t => t = op) parts.
Proof.
  intros Hop. induction parts as [|y parts IH]; intros Hall; [reflexivity|].
  simpl. destruct (decide (y ∈ class)) as [Hy|Hy].
  - rewrite decide_True by (apply Hall; [left | exact Hy]). reflexivity.
  - rewrite decide_False by (intros ->; contradiction).
    rewrite IH; [reflexivity|]. intros t Ht. apply Hall. right. exact Ht.
Qed.

Lemma list_find_eq_snd (op : string) (parts : list string) (i : nat) (y : string) :
  list_find (fun t => t = op) parts = Some (i, y) → y = op.
Proof. intros H. apply list_find_Some in H as (_ & H & _). exact H. Qed.

Lemma first_of_class (class : list string) (op : string) (parts : list string) :
  op ∈ class →
  (∀ t, t ∈ parts → t ∈ class → t = op) →
  Claimed.first_of class parts =
    (fun i => (i, Claimed.mode_of op)) <$> Py.index parts op.
Proof.
  intros Hop Hall. unfold Claimed.first_of.
  rewrite (list_find_class class op parts Hop Hall), index_list_find.
  destruct (list_find (fun t => t = op) parts) as [[i y]|] eqn:H; [|reflexivity].
  apply list_find_eq_snd in H. subst y. reflexivity.
Qed.

Lemma index_absent (class : list string) (op op' : string) (parts : list string) :
  (∀ t, t ∈ parts → t ∈ class → t = op) →
  op' ∈ class → op' ≠ op → Py.index parts op' = None.
Proof.
  intros Hall Hin Hne. apply index_None. intros Hp. apply Hne, Hall; assumption.
Qed.

Lemma honoured_stdout_unmixed (op : string) (parts : list string) :
  op ∈ Claimed.stdout_operators →
  (∀ t, t ∈ parts → t ∈ Claimed.stdout_operators → t = op) →
  Honoured.stdout parts = Claimed.first_of Claimed.stdout_operators parts.
Proof.
  intros Hop Hall. rewrite (first_of_class _ op parts Hop Hall).
  unfold Honoured.stdout.
  assert (∀ op', op' ∈ Claimed.stdout_operators → op' ≠ op → Py.index parts op' = None)
    as Habs by (intros op'; apply index_absent; exact Hall).
  unfold Claimed.stdout_operators in Hop.
  repeat (apply elem_of_cons in Hop as [-> | Hop]); [| | | | inversion Hop].
  - rewrite (Habs ">>"), (Habs "1>>") by (set_solver || discriminate).
    destruct (Py.index parts ">"); [reflexivity|].
    rewrite (Habs "1>") by (set_solver || discriminate). reflexivity.
  - rewrite (Habs ">>"), (Habs "1>>"), (Habs ">") by (set_solver || discriminate).
    destruct (Py.index parts "1>"); reflexivity.
  - destruct (Py.index parts ">>"); [reflexivity|].
    rewrite (Habs "1>>"), (Habs ">"), (Habs "1>") by (set_solver || discriminate).
    reflexivity.
  - rewrite (Habs ">>") by (set_solver || discriminate).
    destruct (Py.index parts "1>>"); [reflexivity|].
    rewrite (Habs ">"), (Habs "1>") by (set_solver || discriminate). reflexivity.
Qed.

Lemma honoured_stderr_unmixed (op : string) (parts : list string) :
  op ∈ Claimed.stderr_operators →
  (∀ t, t ∈ parts → t ∈ Claimed.stderr_operators → t = op) →
  Honoured.stderr parts = Claimed.first_of Claimed.stderr_operators parts.
Proof.
  intros Hop Hall. rewrite (first_of_class _ op parts Hop Hall).
  unfold Honoured.stderr.
  assert (∀ op', op' ∈ Claimed.stderr_operators → op' ≠ op → Py.index parts op' = None)
    as Habs by (intros op'; apply index_absent; exact Hall).
  unfold Claimed.stderr_operators in Hop.
  repeat (apply elem_of_cons in Hop as [-> | Hop]); [| | inversion Hop].
  - rewrite (Habs "2>>") by (set_solver || discriminate).
    destruct (Py.index parts "2>"); reflexivity.
  - destruct (Py.index parts "2>>"); [reflexivity|].
    rewrite (Habs "2>") by (set_solver || discriminate). reflexivity.
Qed.

(** The first token that belongs to one of two classes is at the
    smaller of the two first positions. *)
Lemma list_find_app_class (A B : list string) (parts : list string) :
  fst <$> list_find (fun t => t ∈ (A ++ B)%list) parts =
    match fst <$> list_find (fun t => t ∈ A) parts,
          fst <$> list_find (fun t => t ∈ B) parts with
    | Some i, Some j => Some (i `min` j)
    | Some i, None => Some i
    | None, Some j => Some j
    | None, None => None
    end.
Proof.
  induction parts as [|y parts IH]; [reflexivity|].
  rewrite !list_find_fst_cons, IH.
  destruct (decide (y ∈ A)) as [Ha|Ha], (decide (y ∈ B)) as [Hb|Hb].
  - rewrite decide_True by set_solver. reflexivity.
  - rewrite decide_True by set_solver.
    destruct (fst <$> list_find (fun t => t ∈ B) parts); reflexivity.
  - rewrite decide_True by set_solver.
    destruct (fst <$> list_find (fun t => t ∈ A) parts); reflexivity.
  - rewrite decide_False by (rewrite elem_of_app; tauto).
    destruct (fst <$> list_find (fun t => t ∈ A) parts),
             (fst <$> list_find (fun t => t ∈ B) parts); reflexivity.
Qed.

Lemma first_of_fst (class : list string) (parts : list string) :
  fst <$> Claimed.first_of class parts = fst <$> list_find (fun t => t ∈ class) parts.
Proof.
  unfold Claimed.first_of. destruct (list_find _ parts) as [[i y]|]; reflexivity.
Qed.

(** X13: on a token sequence in which each class occurs with one
    operator only (any number of times), [execute] honours the first
    operator of each class and the command is the tokens before the
    earliest operator. *)
Theorem honoured_is_first_when_unmixed (o e : string) (parts : list string) :
  o ∈ Claimed.stdout_operators → e ∈ Claimed.stderr_operators →
  (∀ t, t ∈ parts → t ∈ Claimed.stdout_operators → t = o) →
  (∀ t, t ∈ parts → t ∈ Claimed.stderr_operators → t = e) →
  Honoured.stdout parts = Claimed.first_of Claimed.stdout_operators parts ∧
  Honoured.stderr parts = Claimed.first_of Claimed.stderr_operators parts ∧
  Honoured.command_args parts = Claimed.command_args parts.
Proof.
  intros Ho He Hao Hae.
  pose proof (honoured_stdout_unmixed o parts Ho Hao) as H1.
  pose proof (honoured_stderr_unmixed e parts He Hae) as H2.
  split; [exact H1|]. split; [exact H2|].
  unfold Honoured.command_args, Claimed.command_args.
  pose proof (list_find_app_class Claimed.stdout_operators Claimed.stderr_operators parts) as H.
  rewrite <- (first_of_fst Claimed.stdout_operators),
    <- (first_of_fst Claimed.stderr_operators), <- H1, <- H2 in H.
  destruct (list_find _ parts) as [[k y]|]; simpl in H;
    destruct (Honoured.stdout parts) as [[i mi]|], (Honoured.stderr parts) as [[j mj]|];
    simpl in H; congruence.
Qed.

End Unmixed.

Lemma honoured_is_first_when_unmixed_witness :
  let parts := ["ls"; "-l"; "2>"; "e"; ">"; "o"; ">"; "p"] in
  Honoured.stdout parts = Claimed.first_of Claimed.stdout_operators parts ∧
  Honoured.stderr parts = Claimed.first_of Claimed.stderr_operators parts ∧
  Honoured.command_args parts = Claimed.command_args parts.
Proof.
  intros parts.
  apply (honoured_is_first_when_unmixed ">" "2>" parts).
  - vm_compute. set_solver.
  - vm_compute. set_solver.
  - intros t Ht Hin. unfold parts in Ht.
    repeat (apply elem_of_cons in Ht as [-> | Ht]); try reflexivity;
      try (inversion Ht; fail);
      exfalso; unfold Claimed.stdout_operators in Hin;
      repeat (apply elem_of_cons in Hin as [Hin | Hin]; [discriminate Hin|]);
      inversion Hin.
  - intros t Ht Hin. unfold parts in Ht.
    repeat (apply elem_of_cons in Ht as [-> | Ht]); try reflexivity;
      try (inversion Ht; fail);
      exfalso; unfold Claimed.stderr_operators in Hin;
      repeat (apply elem_of_cons in Hin as [Hin | Hin]; [discriminate Hin|]);
      inversion Hin.
Defined.

Example unmixed_line :
  let parts := ["ls"; "-l"; "2>"; "e"; ">"; "o"; ">"; "p"] in
  Honoured.command_args parts = ["ls"; "-l"] ∧
  Honoured.stdout parts = Some (4, Truncate) ∧
  Honoured.stderr parts = Some (2, Truncate).
Proof. repeat split; reflexivity. Qed.

(** ** When [execute] returns before the dispatch *)

Section EarlyReturn.
Context (pf : Platform).

Lemma redirection_fails (i : nat) (parts sliced : list string) (mode : open_mode)
    (what : string) (w : World) :
  (parts !! (i + 1) = None ∨
   ∃ file, parts !! (i + 1) = Some file ∧ cannot_open pf w file) →
  ∃ msg,
    redirection pf (ret i) parts sliced mode what w =
      (set_sys_stderr (sys_stderr w ++ ("Error handling " ++ msg) ++ newline) w, Ok None).
Proof.
  rewrite redirection_at. intros [-> | (file & -> & Hno)].
  - eexists. reflexivity.
  - destruct (open_cases pf file mode w) as [(msg & -> & _) | (Hne & Herr & _)].
    + eexists. reflexivity.
    + destruct Hno as [-> | [msg Hmsg]]; congruence.
Qed.

Lemma stdout_redirection_fails (parts : list string) (w : World) (i : nat) (mode : open_mode) :
  Honoured.stdout parts = Some (i, mode) →
  (parts !! (i + 1) = None ∨
   ∃ file, parts !! (i + 1) = Some file ∧ cannot_open pf w file) →
  ∃ msg,
    stdout_redirection pf parts w =
      (set_sys_stderr (sys_stderr w ++ ("Error handling " ++ msg) ++ newline) w, Ok None).
Proof.
  intros Hh Hno. rewrite stdout_redirection_honoured, Hh.
  destruct mode; apply redirection_fails; exact Hno.
Qed.

Lemma stderr_redirection_fails (parts sliced : list string) (w : World)
    (j : nat) (mode : open_mode) :
  Honoured.stderr parts = Some (j, mode) →
  (parts !! (j + 1) = None ∨
   ∃ file, parts !! (j + 1) = Some file ∧ cannot_open pf w file) →
  ∃ msg,
    stderr_redirection pf parts sliced w =
      (set_sys_stderr (sys_stderr w ++ ("Error handling " ++ msg) ++ newline) w, Ok None).
Proof.
  intros Hh Hno. rewrite stderr_redirection_honoured, Hh.
  destruct mode; apply redirection_fails; exact Hno.
Qed.

Lemma stdout_redirection_None (parts : list string) (w w1 : World) :
  stdout_redirection pf parts w = (w1, Ok None) →
  ∃ msg, w1 = set_sys_stderr (sys_stderr w ++ ("Error handling " ++ msg) ++ newline) w.
Proof.
  rewrite stdout_redirection_honoured.
  destruct (Honoured.stdout parts) as [[i []]|]; try apply redirection_None.
  discriminate.
Qed.

Lemma stderr_redirection_None (parts sliced : list string) (w w1 : World) :
  stderr_redirection pf parts sliced w = (w1, Ok None) →
  ∃ msg, w1 = set_sys_stderr (sys_stderr w ++ ("Error handling " ++ msg) ++ newline) w.
Proof.
  rewrite stderr_redirection_honoured.
  destruct (Honoured.stderr parts) as [[i []]|]; try apply redirection_None.
  discriminate.
Qed.

(** An early return has reported one error on the inherited stderr;
    nothing was written to the inherited stdout, no process was
    spawned and the working directory is the same. *)
Lemma redirections_None_frame (parts : list string) (w w' : World) :
  redirections pf parts w = (w', Ok None) →
  ∃ msg,
    sys_stderr w' = sys_stderr w ++ ("Error handling " ++ msg) ++ newline ∧
    sys_stdout w' = sys_stdout w ∧ spawned w' = spawned w ∧ cwd w' = cwd w.
Proof.
  unfold redirections, bind.
  destruct (stdout_redirection pf parts w) as [w1 [[[cp out]|]|e]] eqn:H1.
  - apply stdout_redirection_Some in H1 as (_ & _ & Hc & Ho & He & Hs & _).
    destruct (stderr_redirection pf parts cp w1) as [w2 [[[cp' err]|]|e]] eqn:H2;
      try discriminate.
    intros [= <-]. apply stderr_redirection_None in H2 as [msg ->].
    exists msg. simpl. rewrite He. auto.
  - intros [= <-]. apply stdout_redirection_None in H1 as [msg ->].
    exists msg. simpl. auto.
  - discriminate.
Qed.

(** After an early return nothing is dispatched: [execute] ends in the
    world the redirection steps left, whatever the registry holds. *)
Lemma no_dispatch (self : CommandRegistry) (parts : list string) (w w' : World) :
  redirections pf parts w = (w', Ok None) →
  execute_parts pf self parts w = (w', Ok tt).
Proof. intros H. rewrite execute_parts_eq, H. reflexivity. Qed.

(** A failure of the honoured stdout operator ends [execute] at once;
    one of the honoured stderr operator ends it too, whatever the
    stdout step did before. *)
Lemma redirections_fail (parts : list string) (w : World) :
  (∃ i mode, Honoured.stdout parts = Some (i, mode) ∧
     (parts !! (i + 1) = None ∨
      ∃ file, parts !! (i + 1) = Some file ∧ cannot_open pf w file)) ∨
  (∃ j mode, Honoured.stderr parts = Some (j, mode) ∧
     (parts !! (j + 1) = None ∨
      ∃ file, parts !! (j + 1) = Some file ∧
        cannot_open pf (stdout_redirection pf parts w).1 file)) →
  ∃ w', redirections pf parts w = (w', Ok None).
Proof.
  unfold redirections, bind. intros [(i & mode & Hh & Hno) | (j & mode & Hh & Hno)].
  - destruct (stdout_redirection_fails parts w i mode Hh Hno) as [msg ->]. eauto.
  - destruct (stdout_redirection pf parts w) as [w1 [[[cp out]|]|e]] eqn:H1; simpl in *.
    + destruct (stderr_redirection_fails parts cp w1 j mode Hh Hno) as [msg ->]. eauto.
    + eauto.
    + exfalso. exact (stdout_redirection_not_Raise pf _ _ _ _ H1).
Qed.

End EarlyReturn.

(** C7 (as amended): when the operator honoured for its class is the
    last token, the invocation is aborted before the dispatch: [execute]
    returns in the world its redirection steps left, so no built-in
    handler ran; no process was spawned; and one error message has been
    written to the inherited stderr. *)
Theorem C7_honoured_operator_last_aborts (pf : Platform) (self : CommandRegistry)
    (parts : list string) (w : World) :
  (∃ i mode, Honoured.stdout parts = Some (i, mode) ∧ i + 1 = length parts) ∨
  (∃ j mode, Honoured.stderr parts = Some (j, mode) ∧ j + 1 = length parts) →
  ∃ w' msg,
    redirections pf parts w = (w', Ok None) ∧
    execute_parts pf self parts w = (w', Ok tt) ∧
    sys_stderr w' = sys_stderr w ++ ("Error handling " ++ msg) ++ newline ∧
    sys_stdout w' = sys_stdout w ∧ spawned w' = spawned w ∧ cwd w' = cwd w.
Proof.
  intros H.
  destruct (redirections_fail pf parts w) as [w' Hred].
  { destruct H as [(i & mode & Hh & Hlast) | (j & mode & Hh & Hlast)]; [left | right];
      eexists _, _; (split; [exact Hh|]); left; apply lookup_ge_None_2; lia. }
  destruct (redirections_None_frame pf parts w w' Hred) as (msg & H1 & H2 & H3 & H4).
  exists w', msg. repeat split; auto. apply no_dispatch. exact Hred.
Qed.

Lemma C7_honoured_operator_last_aborts_witness :
  ∃ w' msg,
    redirections Demo.pf ["echo"; "hi"; ">"] Demo.world = (w', Ok None) ∧
    execute_parts Demo.pf main_registry ["echo"; "hi"; ">"] Demo.world = (w', Ok tt) ∧
    sys_stderr w' = sys_stderr Demo.world ++ ("Error handling " ++ msg) ++ newline ∧
    sys_stdout w' = sys_stdout Demo.world ∧ spawned w' = spawned Demo.world ∧
    cwd w' = cwd Demo.world.
Proof.
  apply (C7_honoured_operator_last_aborts Demo.pf main_registry ["echo"; "hi"; ">"] Demo.world).
  left. exists 2, Truncate. split; reflexivity.
Defined.

(** C7 as stated fails on [echo hi >> f >]: the last token is a
    redirection operator with no file name after it, yet the dispatch
    takes place: [echo] runs, its line is in [f], and nothing is
    reported on the inherited stderr. *)
Lemma C7_counterexample :
  let parts := ["echo"; "hi"; ">>"; "f"; ">"] in
  last parts = Some ">" ∧
  (∃ w', redirections Demo.pf parts Demo.world =
           (w', Ok (Some (["echo"; "hi"], FileObj 0, SysStderr)))) ∧
  files (execute_parts Demo.pf main_registry parts Demo.world).1 !! "/home/u/f" =
    Some ("hi" ++ newline) ∧
  sys_stderr (execute_parts Demo.pf main_registry parts Demo.world).1 = EmptyString.
Proof.
  intros parts. split; [reflexivity|].
  split; [eexists; vm_compute; reflexivity|]. split; vm_compute; reflexivity.
Qed.

(** ** The file of a stdout redirection *)

Section RedirectionFiles.
Context (pf : Platform).

Lemma stderr_redirection_files (parts sliced : list string) (w : World) (p : string) :
  is_Some (files w !! p) →
  is_Some (files (stderr_redirection pf parts sliced w).1 !! p).
Proof.
  intros Hp.
  destruct (stderr_redirection pf parts sliced w) as [w1 [[[cp err]|]|e]] eqn:H; simpl.
  - rewrite stderr_redirection_honoured in H.
    destruct (Honoured.stderr parts) as [[j mode]|].
    + assert (redirection pf (ret j) parts sliced mode
                (match mode with Append => "stderr append" | Truncate => "stderr" end) w
              = (w1, Ok (Some (cp, err)))) as H' by (destruct mode; exact H).
      apply redirection_Some in H' as (_ & file & _ & _ & _ & Ho & _).
      apply open_Ok_frame in Ho as (_ & _ & _ & ->).
      destruct (decide (realpath pf (cwd w) file = p)) as [->|Hne].
      * rewrite lookup_insert_eq. eauto.
      * rewrite lookup_insert_ne by exact Hne. exact Hp.
    + injection H as <- _ _. exact Hp.
  - apply stderr_redirection_None in H as [msg ->]. exact Hp.
  - exfalso. exact (stderr_redirection_not_Raise pf _ _ _ _ _ H).
Qed.

Lemma stderr_redirection_spawned (parts sliced : list string) (w : World) :
  spawned (stderr_redirection pf parts sliced w).1 = spawned w.
Proof.
  destruct (stderr_redirection pf parts sliced w) as [w1 [[[cp err]|]|e]] eqn:H; simpl.
  - apply stderr_redirection_Some in H as (_ & _ & _ & _ & _ & Hs & _). exact Hs.
  - apply stderr_redirection_None in H as [msg ->]. reflexivity.
  - exfalso. exact (stderr_redirection_not_Raise pf _ _ _ _ _ H).
Qed.

Lemma stderr_redirection_files_survive (parts sliced : list string) (w : World) :
  files_survive w (stderr_redirection pf parts sliced w).1.
Proof.
  apply files_survive_same; [apply stderr_redirection_spawned|].
  intros p. apply stderr_redirection_files.
Qed.

End RedirectionFiles.

(** C10 (as amended): when the honoured stdout operator is followed by
    a file name that can be opened, the stdout step opens the file
    before anything else: it exists from then on, empty in truncate
    mode and with its former content in append mode; the rest of
    [execute] (the stderr step, the dispatch, the closing) starts from
    that world, whatever the command argument vector is; and when
    [execute] ends without a child process having been run, the file is
    there.  (A child process that is run may remove it.) *)
Theorem C10_honoured_stdout_file_is_opened (pf : Platform) (self : CommandRegistry)
    (parts : list string) (w : World) (i : nat) (mode : open_mode) (file : string) :
  Honoured.stdout parts = Some (i, mode) →
  parts !! (i + 1) = Some file →
  ¬ cannot_open pf w file →
  let p := realpath pf (cwd w) file in
  let out := FileObj (length (file_objects w)) in
  ∃ w1,
    stdout_redirection pf parts w = (w1, Ok (Some (take i parts, out))) ∧
    files w1 = <[p := match mode with
                      | Truncate => EmptyString
                      | Append => default EmptyString (files w !! p)
                      end]> (files w) ∧
    is_open w1 (length (file_objects w)) ∧
    execute_parts pf self parts w =
      (let* r2 := stderr_redirection pf parts (take i parts) in
       match r2 with
       | None => ret tt
       | Some (command_parts, err) => dispatch_then_close pf self command_parts out err
       end) w1 ∧
    (spawned (execute_parts pf self parts w).1 = spawned w →
     is_Some (files (execute_parts pf self parts w).1 !! p)).
Proof.
  intros Hh Hfile Hcan p out.
  destruct (open_cases pf file mode w)
    as [(msg & _ & Hno) | (Hne & Herr & w1 & Ho & Hobj & Hf & _)].
  { exfalso. apply Hcan. destruct Hno as [-> | Hmsg]; [left; reflexivity | right; eauto]. }
  assert (stdout_redirection pf parts w = (w1, Ok (Some (take i parts, out)))) as H1.
  { rewrite stdout_redirection_honoured, Hh.
    destruct mode; rewrite redirection_at, Hfile, Ho; reflexivity. }
  assert (execute_parts pf self parts w =
            (let* r2 := stderr_redirection pf parts (take i parts) in
             match r2 with
             | None => ret tt
             | Some (command_parts, err) => dispatch_then_close pf self command_parts out err
             end) w1) as H2.
  { unfold execute_parts, bind at 1. rewrite H1. reflexivity. }
  assert (is_Some (files w1 !! p)) as Hp.
  { rewrite Hf. fold p. rewrite lookup_insert_eq. eauto. }
  exists w1. split; [exact H1|]. split; [exact Hf|]. split.
  { eexists. split; [rewrite Hobj; apply list_lookup_middle; reflexivity | reflexivity]. }
  split; [exact H2|].
  assert (spawned w1 = spawned w) as Hs1.
  { apply (open_Ok_frame pf file mode w w1 _ Ho). }
  assert (files_survive w1 (execute_parts pf self parts w).1) as [_ Hsurvive].
  { rewrite H2. unfold bind.
    pose proof (stderr_redirection_files_survive pf parts (take i parts) w1) as H3.
    destruct (stderr_redirection pf parts (take i parts) w1) as [w2 [[[cp err]|]|e]];
      simpl in *; try exact H3.
    eapply files_survive_trans; [exact H3 | apply dispatch_then_close_files_survive]. }
  intros Hs. apply Hsurvive; [congruence | exact Hp].
Qed.

Lemma C10_honoured_stdout_file_is_opened_witness :
  ∃ w1,
    stdout_redirection Demo.pf [">"; "log"] Demo.world = (w1, Ok (Some ([], FileObj 0))) ∧
    files w1 = <["/home/u/log" := EmptyString]> (files Demo.world) ∧
    is_open w1 0 ∧
    execute_parts Demo.pf main_registry [">"; "log"] Demo.world =
      (let* r2 := stderr_redirection Demo.pf [">"; "log"] [] in
       match r2 with
       | None => ret tt
       | Some (command_parts, err) =>
           dispatch_then_close Demo.pf main_registry command_parts (FileObj 0) err
       end) w1 ∧
    is_Some (files (execute_parts Demo.pf main_registry [">"; "log"] Demo.world).1
               !! "/home/u/log").
Proof.
  destruct (C10_honoured_stdout_file_is_opened Demo.pf main_registry [">"; "log"] Demo.world
              0 Truncate "log") as (w1 & H1 & H2 & H3 & H4 & H5);
    [reflexivity | reflexivity | intros [H | [msg H]]; discriminate H |].
  exists w1. repeat split; [exact H1 | exact H2 | exact H3 | exact H4 |].
  apply H5. vm_compute. reflexivity.
Defined.

(** The same with a command that is not found and with no command at
    all: the file that held [old] is emptied in both cases. *)
Example truncated_without_command :
  files (execute Demo.pf main_registry "> log" Demo.world).1 !! "/home/u/log" =
    Some EmptyString ∧
  files (execute Demo.pf main_registry "nosuch > log" Demo.world).1 !! "/home/u/log" =
    Some EmptyString ∧
  files (execute Demo.pf main_registry "nosuch >> log" Demo.world).1 !! "/home/u/log" =
    Some "old".
Proof. repeat split; vm_compute; reflexivity. Qed.

(** C10 as stated fails on [> f >>]: the operator [>] is followed by
    the file name [f], which could be opened, but [execute] honours the
    later [>>], finds no file name after it and returns; [f] is never
    opened nor created. *)
Lemma C10_counterexample :
  let parts := [">"; "f"; ">>"] in
  Claimed.first_of Claimed.stdout_operators parts = Some (0, Truncate) ∧
  parts !! 1 = Some "f" ∧
  ¬ cannot_open Demo.pf Demo.world "f" ∧
  files (execute_parts Demo.pf main_registry parts Demo.world).1 !! "/home/u/f" = None ∧
  file_objects (execute_parts Demo.pf main_registry parts Demo.world).1 = [].
Proof.
  intros parts. split; [reflexivity|]. split; [reflexivity|].
  split; [intros [H | [msg H]]; discriminate H|].
  split; vm_compute; reflexivity.
Qed.

(** ** Closing the targets *)








(** ** The candidate list of the completer *)

Lemma compare_as_OT (a b : string) : String.compare a b = String_as_OT.compare a b.
Proof.
  revert b. induction a as [|c a IH]; destruct b as [|d b]; simpl; try reflexivity.
  all: rewrite IH; reflexivity.
Qed.

Lemma compare_Lt_trans (a b c : string) :
  String.compare a b = Lt → String.compare b c = Lt → String.compare a c = Lt.
Proof.
  rewrite !compare_as_OT. intros H1 H2.
  exact (StrictOrder_Transitive (R := String_as_OT.lt) a b c H1 H2).
Qed.

Lemma compare_Gt_Lt (a b : string) :
  String.compare a b = Gt → String.compare b a = Lt.
Proof. intros H. rewrite String.compare_antisym, H. reflexivity. Qed.

Lemma elem_of_insert_sorted (x y : string) (l : list string) :
  y ∈ Py.insert_sorted x l ↔ y = x ∨ y ∈ l.
Proof.
  induction l as [|z l IH]; simpl.
  - rewrite list_elem_of_singleton. split; [auto | intros [H|H]; [exact H | inversion H]].
  - destruct (String.compare x z) eqn:Hc.
    + apply String.compare_eq_iff in Hc as ->. rewrite elem_of_cons. tauto.
    + rewrite elem_of_cons. reflexivity.
    + rewrite !elem_of_cons, IH. tauto.
Qed.

(** [sorted(set(l))] has exactly the elements of [l]. *)
Lemma elem_of_sorted_set (y : string) (l : list string) :
  y ∈ Py.sorted_set l ↔ y ∈ l.
Proof.
  induction l as [|x l IH]; simpl; [reflexivity|].
  rewrite elem_of_insert_sorted, IH, elem_of_cons. reflexivity.
Qed.

Lemma insert_sorted_HdRel (x y : string) (l : list string) :
  String.compare y x = Lt →
  HdRel (fun a b => String.compare a b = Lt) y l →
  HdRel (fun a b => String.compare a b = Lt) y (Py.insert_sorted x l).
Proof.
  intros Hyx Hl. destruct l as [|z l]; simpl; [constructor; exact Hyx|].
  inversion Hl; subst. destruct (String.compare x z); constructor; assumption.
Qed.

Lemma insert_sorted_Sorted (x : string) (l : list string) :
  Sorted (fun a b => String.compare a b = Lt) l →
  Sorted (fun a b => String.compare a b = Lt) (Py.insert_sorted x l).
Proof.
  induction 1 as [|z l Hs IH Hhd]; simpl.
  - repeat constructor.
  - destruct (String.compare x z) eqn:Hc.
    + constructor; assumption.
    + constructor; [constructor; assumption | constructor; exact Hc].
    + constructor; [exact IH|].
      apply insert_sorted_HdRel; [apply compare_Gt_Lt, Hc | exact Hhd].
Qed.

(** [sorted(set(l))] is strictly increasing, hence without duplicates. *)
Lemma sorted_set_Sorted (l : list string) :
  Sorted (fun a b => String.compare a b = Lt) (Py.sorted_set l).
Proof.
  induction l as [|x l IH]; simpl; [constructor | apply insert_sorted_Sorted, IH].
Qed.

Lemma sorted_set_StronglySorted (l : list string) :
  StronglySorted (fun a b => String.compare a b = Lt) (Py.sorted_set l).
Proof.
  apply Sorted_StronglySorted; [|apply sorted_set_Sorted].
  intros a b c. apply compare_Lt_trans.
Qed.

Lemma sorted_set_NoDup (l : list string) : NoDup (Py.sorted_set l).
Proof.
  pose proof (sorted_set_StronglySorted l) as H.
  induction H as [|x l' Hs IH Hall]; constructor; [|exact IH].
  intros Hin. rewrite Forall_forall in Hall. specialize (Hall x Hin).
  pose proof (String.compare_antisym x x) as Ha. rewrite Hall in Ha. discriminate Ha.
Qed.

Section Candidates.
Context (pf : Platform) (w : World).

Lemma elem_of_executables_of (keep : string → bool) (path f : string) :
  f ∈ executables_of pf keep w path ↔
  isdir pf w path = true ∧
  ∃ entries, listdir pf w path = Some entries ∧ f ∈ entries ∧
             keep (Py.path_join path f) = true.
Proof.
  unfold executables_of. destruct (isdir pf w path).
  - destruct (listdir pf w path) as [entries|].
    + rewrite list_elem_of_filter. split.
      * intros [Hk Hin]. split; [reflexivity|]. exists entries.
        repeat split; [exact Hin | apply Is_true_true, Hk].
      * intros (_ & entries' & [= <-] & Hin & Hk). split; [apply Is_true_true, Hk | exact Hin].
    + split; [intros H; inversion H | intros (_ & entries & H & _); discriminate].
  - split; [intros H; inversion H | intros (H & _); discriminate].
Qed.

(** The candidates are the three names listed in [completer] and the
    entries of the search directories that pass [os.access(..., X_OK)],
    without duplicates and in increasing order. *)
Lemma all_commands_spec (x : string) :
  x ∈ all_commands pf w ↔
  x ∈ ["echo"; "exit"; "type"] ∨
  ∃ path, path ∈ Py.split ":" (getenv pf "PATH" EmptyString) ∧
    isdir pf w path = true ∧
    ∃ entries, listdir pf w path = Some entries ∧ x ∈ entries ∧
               access_x pf w (Py.path_join path x) = true.
Proof.
  unfold all_commands, find_executables, builtins.
  rewrite elem_of_sorted_set, elem_of_app, elem_of_sorted_set.
  rewrite (list_elem_of_In (flat_map _ _) x), in_flat_map.
  split; (intros [H|H]; [left; exact H | right]).
  - destruct H as (path & Hp & Hx). exists path. rewrite list_elem_of_In.
    split; [exact Hp|]. apply elem_of_executables_of. apply list_elem_of_In. exact Hx.
  - destruct H as (path & Hp & Hx). exists path. rewrite <- list_elem_of_In.
    split; [exact Hp|]. apply list_elem_of_In.
    apply (elem_of_executables_of (fun p => access_x pf w p)). exact Hx.
Qed.

Lemma all_commands_sorted :
  StronglySorted (fun a b => String.compare a b = Lt) (all_commands pf w) ∧
  NoDup (all_commands pf w).
Proof. split; [apply sorted_set_StronglySorted | apply sorted_set_NoDup]. Qed.

End Candidates.

(** C4: the built-ins [pwd] and [cd] are registered by [main] but are
    not completion candidates: the completer filters a list made of
    [echo], [exit], [type] and the entries of the search path, so the
    text [pw] has no completion.  The entries of the search path are
    not the enumeration of executable regular files either: [sub], a
    directory of [/bin], is a candidate, while
    [get_executables_in_path] leaves it out. *)
Theorem C4_registered_builtins_missing_from_candidates :
  is_Some (commands main_registry !! "pwd") ∧
  is_Some (commands main_registry !! "cd") ∧
  ("pwd" ∉ all_commands Demo.pf Demo.world) ∧
  ("cd" ∉ all_commands Demo.pf Demo.world) ∧
  (completer Demo.pf CommandCompleter_init "pw" 0 Demo.world).2 =
    Ok ({| matches := []; last_text := "pw"; match_index := (-1)%Z; tab_count := 0 |}, None) ∧
  all_commands Demo.pf Demo.world = ["cat"; "echo"; "env"; "exit"; "ls"; "sub"; "type"] ∧
  get_executables_in_path Demo.pf Demo.world = ["cat"; "env"; "ls"].
Proof.
  split; [vm_compute; eauto|]. split; [vm_compute; eauto|].
  assert (all_commands Demo.pf Demo.world = ["cat"; "echo"; "env"; "exit"; "ls"; "sub"; "type"])
    as Hall by (vm_compute; reflexivity).
  rewrite Hall.
  split; [intros H; repeat (apply elem_of_cons in H as [H|H]; [discriminate H|]); inversion H|].
  split; [intros H; repeat (apply elem_of_cons in H as [H|H]; [discriminate H|]); inversion H|].
  split; [vm_compute; reflexivity|]. split; [reflexivity | vm_compute; reflexivity].
Qed.

(** ** The longest common prefix *)

Lemma prefix_empty (s : string) : String.prefix EmptyString s = true.
Proof. destruct s; reflexivity. Qed.

Lemma prefix_of_empty (t : string) : String.prefix t EmptyString = true → t = EmptyString.
Proof. destruct t; [reflexivity | discriminate]. Qed.

Lemma prefix_cons (a b : ascii) (s t : string) :
  String.prefix (String a s) (String b t) = true ↔ a = b ∧ String.prefix s t = true.
Proof.
  simpl. destruct (ascii_dec a b) as [->|Hne].
  - tauto.
  - split; [discriminate | intros [H _]; contradiction].
Qed.

Lemma prefix_refl (s : string) : String.prefix s s = true.
Proof. induction s as [|c s IH]; [reflexivity|]. apply prefix_cons. auto. Qed.

Lemma prefix_trans (a b c : string) :
  String.prefix a b = true → String.prefix b c = true → String.prefix a c = true.
Proof.
  revert b c. induction a as [|x a IH]; intros b c Hab Hbc; [apply prefix_empty|].
  destruct b as [|y b]; [discriminate Hab|]. destruct c as [|z c]; [discriminate Hbc|].
  apply prefix_cons in Hab as [-> Hab]. apply prefix_cons in Hbc as [-> Hbc].
  apply prefix_cons. split; [reflexivity | exact (IH b c Hab Hbc)].
Qed.

Lemma drop_last_cons (c : ascii) (s : string) :
  s ≠ EmptyString → Py.drop_last (String c s) = String c (Py.drop_last s).
Proof. destruct s; [contradiction | reflexivity]. Qed.

Lemma drop_last_prefix (p : string) : String.prefix (Py.drop_last p) p = true.
Proof.
  induction p as [|c p IH]; [reflexivity|].
  destruct p as [|d p]; [reflexivity|].
  rewrite drop_last_cons by discriminate. apply prefix_cons. auto.
Qed.

Lemma length_drop_last (p : string) :
  String.length (Py.drop_last p) = String.length p - 1.
Proof.
  induction p as [|c p IH]; [reflexivity|].
  destruct p as [|d p]; [reflexivity|].
  rewrite drop_last_cons by discriminate.
  change (S (String.length (Py.drop_last (String d p))) = S (String.length (String d p)) - 1).
  rewrite IH. simpl. lia.
Qed.

(** A proper prefix of [p] is a prefix of [p] without its last character. *)
Lemma prefix_drop_last (t p : string) :
  String.prefix t p = true → t ≠ p → String.prefix t (Py.drop_last p) = true.
Proof.
  revert p. induction t as [|a t IH]; intros p Htp Hne; [apply prefix_empty|].
  destruct p as [|b p]; [discriminate Htp|].
  apply prefix_cons in Htp as [-> Htp].
  destruct p as [|d p].
  - apply prefix_of_empty in Htp as ->. contradiction.
  - rewrite drop_last_cons by discriminate. apply prefix_cons. split; [reflexivity|].
    apply IH; [exact Htp | congruence].
Qed.

Section LongestCommonPrefix.

(** Whatever is a prefix of both [word] and [prefix] is a prefix of
    what the [while] loop leaves; the loop gives up ([None]) only when
    nothing but the empty string is. *)
Lemma shorten_keeps (fuel : nat) (word prefix q : string) :
  String.prefix q word = true → String.prefix q prefix = true →
  match shorten fuel word prefix with
  | Some prefix' => String.prefix q prefix' = true
  | None => q = EmptyString
  end.
Proof.
  intros Hqw. revert prefix. induction fuel as [|fuel IH]; intros prefix Hqp; simpl.
  - destruct (Py.startswith word prefix); exact Hqp.
  - destruct (Py.startswith word prefix) eqn:Hs; [exact Hqp|].
    assert (String.prefix q (Py.drop_last prefix) = true) as Hq'.
    { apply prefix_drop_last; [exact Hqp|]. intros ->. unfold Py.startswith in Hs. congruence. }
    destruct (String.eqb_spec (Py.drop_last prefix) EmptyString) as [He|He].
    + rewrite He in Hq'. apply prefix_of_empty, Hq'.
    + apply IH, Hq'.
Qed.

(** With one unit of fuel per character the loop ends by its own test:
    what it leaves is a prefix of [prefix] and of [word]. *)
Lemma shorten_common (fuel : nat) (word prefix prefix' : string) :
  (String.length prefix ≤ fuel)%nat →
  shorten fuel word prefix = Some prefix' →
  String.prefix prefix' prefix = true ∧ String.prefix prefix' word = true.
Proof.
  revert prefix. induction fuel as [|fuel IH]; intros prefix Hlen; simpl.
  - destruct prefix; [|simpl in Hlen; lia].
    unfold Py.startswith. rewrite prefix_empty. intros [= <-].
    split; [reflexivity | apply prefix_empty].
  - destruct (Py.startswith word prefix) eqn:Hs.
    + intros [= <-]. split; [apply prefix_refl | exact Hs].
    + destruct (String.eqb_spec (Py.drop_last prefix) EmptyString) as [He|He]; [discriminate|].
      intros H. apply IH in H as [H1 H2].
      * split; [|exact H2]. eapply prefix_trans; [exact H1 | apply drop_last_prefix].
      * rewrite length_drop_last. lia.
Qed.

Lemma lcp_loop_keeps (prefix q : string) (words : list string) :
  String.prefix q prefix = true →
  (∀ word, word ∈ words → String.prefix q word = true) →
  String.prefix q (lcp_loop prefix words) = true.
Proof.
  revert prefix. induction words as [|word words IH]; intros prefix Hqp Hall; simpl.
  - exact Hqp.
  - pose proof (shorten_keeps (String.length prefix) word prefix q
                  (Hall word ltac:(left)) Hqp) as H.
    destruct (shorten (String.length prefix) word prefix) as [prefix'|].
    + apply IH; [exact H|]. intros w Hw. apply Hall. right. exact Hw.
    + subst q. reflexivity.
Qed.

Lemma lcp_loop_common (prefix : string) (words : list string) :
  String.prefix (lcp_loop prefix words) prefix = true ∧
  ∀ word, word ∈ words → String.prefix (lcp_loop prefix words) word = true.
Proof.
  revert prefix. induction words as [|word words IH]; intros prefix; simpl.
  - split; [apply prefix_refl | intros w Hw; inversion Hw].
  - destruct (shorten (String.length prefix) word prefix) as [prefix'|] eqn:Hsh.
    + apply shorten_common in Hsh as [H1 H2]; [|lia].
      destruct (IH prefix') as [H3 H4]. split.
      * eapply prefix_trans; [exact H3 | exact H1].
      * intros w [->|Hw]%elem_of_cons; [|apply H4, Hw].
        eapply prefix_trans; [exact H3 | exact H2].
    + split; [apply prefix_empty | intros; apply prefix_empty].
Qed.

(** [longest_common_prefix] returns a prefix of every word ... *)
Lemma longest_common_prefix_common (words : list string) (word : string) :
  word ∈ words → String.prefix (longest_common_prefix words) word = true.
Proof.
  destruct words as [|word0 words]; simpl; [intros H; inversion H|].
  destruct (lcp_loop_common word0 words) as [H1 H2].
  intros [->|Hw]%elem_of_cons; [exact H1 | apply H2, Hw].
Qed.

(** ... and the longest one: every common prefix of a non-empty list
    of words is a prefix of it. *)
Lemma longest_common_prefix_longest (words : list string) (q : string) :
  words ≠ [] →
  (∀ word, word ∈ words → String.prefix q word = true) →
  String.prefix q (longest_common_prefix words) = true.
Proof.
  destruct words as [|word0 words]; [contradiction|]. intros _ Hall. simpl.
  apply lcp_loop_keeps; [apply Hall; left|].
  intros w Hw. apply Hall. right. exact Hw.
Qed.

Lemma prefix_length (a b : string) :
  String.prefix a b = true → (String.length a ≤ String.length b)%nat.
Proof.
  revert b. induction a as [|x a IH]; intros b H; simpl; [lia|].
  destruct b as [|y b]; [discriminate H|].
  apply prefix_cons in H as [_ H]. apply IH in H. simpl. lia.
Qed.

Lemma prefix_same_length (a b : string) :
  String.prefix a b = true → String.length a = String.length b → a = b.
Proof.
  revert b. induction a as [|x a IH]; intros b H Hlen.
  - destruct b; [reflexivity | discriminate Hlen].
  - destruct b as [|y b]; [discriminate H|].
    apply prefix_cons in H as [-> H]. f_equal. apply IH; [exact H|].
    simpl in Hlen. lia.
Qed.

(** The matches of a text all start with it, so their common prefix
    starts with it: when it differs from the text it is strictly
    longer. *)
Lemma common_prefix_of_matches (cmds : list string) (text : string) :
  let ms := filter (fun cmd => Is_true (Py.startswith cmd text)) cmds in
  ms ≠ [] →
  String.prefix text (longest_common_prefix ms) = true ∧
  (longest_common_prefix ms ≠ text →
   (String.length text < String.length (longest_common_prefix ms))%nat).
Proof.
  intros ms Hne.
  assert (String.prefix text (longest_common_prefix ms) = true) as H.
  { apply longest_common_prefix_longest; [exact Hne|].
    intros w [Hw _]%list_elem_of_filter. apply Is_true_true, Hw. }
  split; [exact H|]. intros Hdiff.
  pose proof (prefix_length _ _ H) as Hle.
  destruct (decide (String.length text = String.length (longest_common_prefix ms))) as [He|He];
    [|lia].
  exfalso. apply Hdiff. symmetry. apply prefix_same_length; assumption.
Qed.

End LongestCommonPrefix.

Example longest_common_prefix_examples :
  longest_common_prefix ["echo"; "env"; "exit"] = "e" ∧
  longest_common_prefix ["xyz_bar"; "xyz_baz"; "xyz_quz"] = "xyz_" ∧
  longest_common_prefix ["echo"; "type"] = EmptyString ∧
  longest_common_prefix [] = EmptyString.
Proof. repeat split; reflexivity. Qed.

(** ** The completion engine *)

Section Presses.
Context (pf : Platform) (text : string).

(** A press with a text that differs from the last one recomputes the
    matches and resets the counters before anything else. *)
Lemma completer_new_text (self : CommandCompleter) (w : World) :
  text ≠ last_text self →
  completer pf self text 0 w =
  completer pf
    (Build_CommandCompleter
       (filter (fun cmd => Is_true (Py.startswith cmd text)) (all_commands pf w))
       text (-1) 0) text 0 w.
Proof.
  intros Hnew. unfold completer. simpl.
  rewrite (proj2 (String.eqb_neq _ _) Hnew). rewrite String.eqb_refl. reflexivity.
Qed.

(** Calls with a non-zero [state] do nothing. *)
Lemma completer_later_state (self : CommandCompleter) (state : nat) (w : World) :
  state ≠ 0 → completer pf self text state w = (w, Ok (self, None)).
Proof. intros H. unfold completer. destruct state; [contradiction | reflexivity]. Qed.

Lemma press_of_completer (st : CommandCompleter * World) (w' : World)
    (self' : CommandCompleter) (r : option string) :
  completer pf st.1 text 0 st.2 = (w', Ok (self', r)) →
  press pf text st = ((self', w'), r).
Proof. intros H. unfold press. rewrite H. reflexivity. Qed.

(** No match: nothing is returned. *)
Lemma completer_none (i : Z) (n : nat) (w : World) :
  completer pf (Build_CommandCompleter [] text i n) text 0 w =
    (w, Ok (Build_CommandCompleter [] text i n, None)).
Proof. unfold completer. simpl. rewrite String.eqb_refl. reflexivity. Qed.

(** One match: it is returned with a space. *)
Lemma completer_single (m : string) (i : Z) (n : nat) (w : World) :
  completer pf (Build_CommandCompleter [m] text i n) text 0 w =
    (w, Ok (Build_CommandCompleter [m] text i n, Some (m ++ " "))).
Proof. unfold completer. simpl. rewrite String.eqb_refl. reflexivity. Qed.

(** Several matches whose common prefix is not the text: the common
    prefix is returned and the counter is left alone. *)
Lemma completer_common_prefix (ms : list string) (i : Z) (n : nat) (w : World) :
  (2 ≤ length ms)%nat →
  longest_common_prefix ms ≠ text →
  completer pf (Build_CommandCompleter ms text i n) text 0 w =
    (w, Ok (Build_CommandCompleter ms text i n, Some (longest_common_prefix ms))).
Proof.
  intros Hlen Hne. destruct ms as [|m1 [|m2 ms]]; simpl in Hlen; try lia.
  unfold completer. cbn -[longest_common_prefix].
  rewrite String.eqb_refl. cbn -[longest_common_prefix].
  rewrite (proj2 (String.eqb_neq _ _) Hne). reflexivity.
Qed.

(** Several matches whose common prefix is the text.  First count: the
    bell and nothing else. *)
Lemma completer_alert (ms : list string) (i : Z) (w : World) :
  (2 ≤ length ms)%nat →
  longest_common_prefix ms = text →
  completer pf (Build_CommandCompleter ms text i 0) text 0 w =
    (set_sys_stdout (sys_stdout w ++ bell) w, Ok (Build_CommandCompleter ms text i 1, None)).
Proof.
  intros Hlen He. destruct ms as [|m1 [|m2 ms]]; simpl in Hlen; try lia.
  unfold completer. cbn -[longest_common_prefix].
  rewrite String.eqb_refl. cbn -[longest_common_prefix].
  rewrite He, String.eqb_refl. reflexivity.
Qed.

(** Second count: the matches on a fresh line, then the prompt and the
    text again. *)
Lemma completer_list (ms : list string) (i : Z) (w : World) :
  (2 ≤ length ms)%nat →
  longest_common_prefix ms = text →
  completer pf (Build_CommandCompleter ms text i 1) text 0 w =
    (set_sys_stdout
       ((sys_stdout w ++ (newline ++ Py.join "  " ms) ++ newline) ++ "$ " ++ text) w,
     Ok (Build_CommandCompleter ms text i 2, None)).
Proof.
  intros Hlen He. destruct ms as [|m1 [|m2 ms]]; simpl in Hlen; try lia.
  unfold completer. cbn -[longest_common_prefix Py.join].
  rewrite String.eqb_refl. cbn -[longest_common_prefix Py.join].
  rewrite He, String.eqb_refl. reflexivity.
Qed.

(** From the third count on: the next match, wrapping around, with a
    space, and no output. *)
Lemma completer_cycle (ms : list string) (i : Z) (n : nat) (w : World) :
  (2 ≤ length ms)%nat → (2 ≤ n)%nat →
  longest_common_prefix ms = text →
  completer pf (Build_CommandCompleter ms text i n) text 0 w =
    (w, Ok (Build_CommandCompleter ms text ((i + 1) mod Z.of_nat (length ms)) (n + 1),
            Some (default EmptyString (ms !! Z.to_nat ((i + 1) mod Z.of_nat (length ms)))
                  ++ " "))).
Proof.
  intros Hlen Hn He. destruct ms as [|m1 [|m2 ms]]; simpl in Hlen; try lia.
  unfold completer. cbn -[longest_common_prefix Z.modulo Z.of_nat length].
  rewrite String.eqb_refl. cbn -[longest_common_prefix Z.modulo Z.of_nat length].
  rewrite He, String.eqb_refl. cbn -[longest_common_prefix Z.modulo Z.of_nat length].
  rewrite (proj2 (Nat.eqb_neq (n + 1) 1)) by lia.
  rewrite (proj2 (Nat.eqb_neq (n + 1) 2)) by lia.
  reflexivity.
Qed.

Lemma next_index (k len : nat) :
  (0 < len)%nat →
  ((Z.of_nat (k mod len) + 1) mod Z.of_nat len)%Z = Z.of_nat (S k mod len).
Proof.
  intros Hlen. rewrite !Nat2Z.inj_mod, Zplus_mod_idemp_l, Nat2Z.inj_succ.
  reflexivity.
Qed.

End Presses.

(** X8: the presses that follow a change of text.  [ms] is the list of
    candidates that start with [text], computed at the first press.
    With one match every press returns it with a space.  With several
    matches whose common prefix is not [text], every press returns the
    common prefix, which is strictly longer than [text], and the
    counter stays at zero.  With several matches whose common prefix is
    [text], the first press rings the bell, the second shows the list
    and the prompt with the text, and press [3 + k] returns match
    number [k] modulo the number of matches with a space, printing
    nothing. *)
Theorem completion_after_new_text (pf : Platform) (self : CommandCompleter)
    (w : World) (text : string) :
  text ≠ last_text self →
  let ms := filter (fun cmd => Is_true (Py.startswith cmd text)) (all_commands pf w) in
  let wb := set_sys_stdout (sys_stdout w ++ bell) w in
  let wl :=
    set_sys_stdout
      ((sys_stdout wb ++ (newline ++ Py.join "  " ms) ++ newline) ++ "$ " ++ text) wb in
  (ms = [] →
   ∀ n, press pf text (after_presses pf n text (self, w)) =
          ((Build_CommandCompleter [] text (-1) 0, w), None)) ∧
  (∀ m, ms = [m] →
   ∀ n, press pf text (after_presses pf n text (self, w)) =
          ((Build_CommandCompleter [m] text (-1) 0, w), Some (m ++ " "))) ∧
  ((2 ≤ length ms)%nat → longest_common_prefix ms ≠ text →
   (String.length text < String.length (longest_common_prefix ms))%nat ∧
   String.prefix text (longest_common_prefix ms) = true ∧
   ∀ n, press pf text (after_presses pf n text (self, w)) =
          ((Build_CommandCompleter ms text (-1) 0, w), Some (longest_common_prefix ms))) ∧
  ((2 ≤ length ms)%nat → longest_common_prefix ms = text →
   press pf text (self, w) = ((Build_CommandCompleter ms text (-1) 1, wb), None) ∧
   press pf text (after_presses pf 1 text (self, w)) =
     ((Build_CommandCompleter ms text (-1) 2, wl), None) ∧
   ∀ k, press pf text (after_presses pf (2 + k) text (self, w)) =
          ((Build_CommandCompleter ms text (Z.of_nat (k mod length ms)) (3 + k), wl),
           Some (default EmptyString (ms !! (k mod length ms)) ++ " "))).
Proof.
  intros Hnew ms wb wl.
  split; [|split; [|split]].
  - intros Hms.
    assert (press pf text (self, w) = ((Build_CommandCompleter [] text (-1) 0, w), None)) as H0.
    { apply press_of_completer. simpl. rewrite completer_new_text by exact Hnew.
      fold ms. rewrite Hms. apply completer_none. }
    intros n. induction n as [|n IH]; [exact H0|].
    simpl. rewrite IH. simpl. apply press_of_completer. apply completer_none.
  - intros m Hms.
    assert (press pf text (self, w) =
              ((Build_CommandCompleter [m] text (-1) 0, w), Some (m ++ " "))) as H0.
    { apply press_of_completer. simpl. rewrite completer_new_text by exact Hnew.
      fold ms. rewrite Hms. apply completer_single. }
    intros n. induction n as [|n IH]; [exact H0|].
    simpl. rewrite IH. simpl. apply press_of_completer. apply completer_single.
  - intros Hlen Hne.
    assert (ms ≠ []) as Hnil by (intros E; rewrite E in Hlen; simpl in Hlen; lia).
    destruct (common_prefix_of_matches (all_commands pf w) text Hnil) as [Hpre Hlong].
    split; [apply Hlong, Hne|]. split; [exact Hpre|].
    assert (press pf text (self, w) =
              ((Build_CommandCompleter ms text (-1) 0, w),
               Some (longest_common_prefix ms))) as H0.
    { apply press_of_completer. simpl. rewrite completer_new_text by exact Hnew.
      fold ms. apply completer_common_prefix; assumption. }
    intros n. induction n as [|n IH]; [exact H0|].
    simpl. rewrite IH. simpl. apply press_of_completer.
    apply completer_common_prefix; assumption.
  - intros Hlen He.
    assert (press pf text (self, w) = ((Build_CommandCompleter ms text (-1) 1, wb), None)) as H1.
    { apply press_of_completer. simpl. rewrite completer_new_text by exact Hnew.
      fold ms. apply completer_alert; assumption. }
    assert (press pf text (after_presses pf 1 text (self, w)) =
              ((Build_CommandCompleter ms text (-1) 2, wl), None)) as H2.
    { simpl. rewrite H1. apply press_of_completer. simpl.
      apply completer_list; assumption. }
    split; [exact H1|]. split; [exact H2|].
    intros k. induction k as [|k IH].
    + change (after_presses pf (2 + 0) text (self, w))
        with (press pf text (after_presses pf 1 text (self, w))).1.
      rewrite H2. apply press_of_completer. simpl fst. simpl snd.
      rewrite completer_cycle by (assumption || lia).
      rewrite Nat.Div0.mod_0_l. reflexivity.
    + change (after_presses pf (2 + S k) text (self, w))
        with (press pf text (after_presses pf (2 + k) text (self, w))).1.
      rewrite IH. apply press_of_completer. simpl fst. simpl snd.
      rewrite completer_cycle by (assumption || lia).
      rewrite next_index by lia. rewrite Nat2Z.id.
      replace (S (S (S k)) + 1)%nat with (3 + S k)%nat by lia. reflexivity.
Qed.

Lemma completion_after_new_text_witness :
  let ms := ["echo"; "env"; "exit"] in
  let wb := set_sys_stdout bell Demo.world in
  let wl :=
    set_sys_stdout ((bell ++ (newline ++ "echo  env  exit") ++ newline) ++ "$ e") Demo.world in
  (press Demo.pf "ec" (CommandCompleter_init, Demo.world)).2 = Some "echo " ∧
  (press Demo.pf "e" (CommandCompleter_init, Demo.world) =
     ((Build_CommandCompleter ms "e" (-1) 1, wb), None) ∧
   press Demo.pf "e" (after_presses Demo.pf 1 "e" (CommandCompleter_init, Demo.world)) =
     ((Build_CommandCompleter ms "e" (-1) 2, wl), None) ∧
   ∀ k, press Demo.pf "e" (after_presses Demo.pf (2 + k) "e" (CommandCompleter_init, Demo.world)) =
          ((Build_CommandCompleter ms "e" (Z.of_nat (k mod 3)) (3 + k), wl),
           Some (default EmptyString (ms !! (k mod 3)) ++ " "))).
Proof.
  intros ms wb wl. split.
  - pose proof (completion_after_new_text Demo.pf CommandCompleter_init Demo.world "ec")
      as H.
    destruct H as (_ & H & _); [discriminate|].
    exact (f_equal snd (H "echo" eq_refl 0)).
  - pose proof (completion_after_new_text Demo.pf CommandCompleter_init Demo.world "e")
      as H.
    destruct H as (_ & _ & _ & H); [discriminate|].
    apply H; [vm_compute; lia | reflexivity].
Defined.

(** C3: on a completer that has not completed anything yet, requests
    with the empty text never get an answer.  At least two candidates
    start with the empty text ([echo] and [type] are always among them)
    and their longest common prefix is the empty text itself, which
    calls for the bell, then the list, then the cycle; but [last_text]
    starts as the empty text, so the matches are never computed and
    every press returns nothing, prints nothing and leaves the state as
    it was. *)
Theorem C3_empty_text_on_fresh_completer_does_nothing (pf : Platform) (w : World) :
  let ms :=
    filter (fun cmd => Is_true (Py.startswith cmd EmptyString)) (all_commands pf w) in
  (2 ≤ length ms)%nat ∧
  longest_common_prefix ms = EmptyString ∧
  ∀ n, press pf EmptyString (after_presses pf n EmptyString (CommandCompleter_init, w)) =
         ((CommandCompleter_init, w), None).
Proof.
  intros ms.
  assert ("echo" ∈ ms ∧ "type" ∈ ms) as [He Ht].
  { split; apply list_elem_of_filter; (split; [reflexivity|]);
      apply all_commands_spec; left; set_solver. }
  split; [|split].
  - destruct ms as [|a [|b l]]; simpl; try lia.
    + inversion He.
    + apply list_elem_of_singleton in He, Ht. congruence.
  - pose proof (longest_common_prefix_common ms _ He) as H1.
    pose proof (longest_common_prefix_common ms _ Ht) as H2.
    destruct (longest_common_prefix ms) as [|c s]; [reflexivity|].
    apply prefix_cons in H1 as [-> _]. apply prefix_cons in H2 as [H2 _]. discriminate H2.
  - assert (press pf EmptyString (CommandCompleter_init, w) =
              ((CommandCompleter_init, w), None)) as H0 by reflexivity.
    intros n. induction n as [|n IH]; [exact H0|].
    simpl. rewrite IH. exact H0.
Qed.

Example empty_text_after_another_text :
  (press Demo.pf EmptyString
     (after_presses Demo.pf 1 "ec" (CommandCompleter_init, Demo.world))).1.2
    = set_sys_stdout bell Demo.world.
Proof. vm_compute. reflexivity. Qed.

(** * Further properties of the program *)

(** ** Path search *)

Lemma split_nonempty (sep : ascii) (s : string) : Py.split sep s ≠ [].
Proof.
  destruct s as [|c s]; simpl; [discriminate|].
  destruct (Ascii.eqb c sep); [discriminate|].
  destruct (Py.split sep s); discriminate.
Qed.

Lemma path_join_absolute (dir name : string) :
  Py.startswith name "/" = true → Py.path_join dir name = name.
Proof. intros H. unfold Py.path_join. rewrite H. reflexivity. Qed.

(** X1: [find_executable] returns the candidate [directory/name] of
    the first directory of the search path, in listed order, whose
    candidate is a regular file with execute permission; it returns
    [None] exactly when no directory has such a candidate; and a
    returned path is never the empty string. *)
Theorem find_executable_first_match (pf : Platform) (w : World) (name : string) :
  let paths := Py.split ":" (getenv pf "PATH" EmptyString) in
  let ok := fun p => isfile pf w p && access_x pf w p in
  (∀ p, find_executable pf w name = Some p ↔
     ∃ i dir, paths !! i = Some dir ∧ p = Py.path_join dir name ∧ ok p = true ∧
       ∀ j dir', j < i → paths !! j = Some dir' → ok (Py.path_join dir' name) = false) ∧
  (find_executable pf w name = None ↔
     ∀ dir, dir ∈ paths → ok (Py.path_join dir name) = false) ∧
  find_executable pf w name ≠ Some EmptyString.
Proof.
  intros paths ok. split; [|split].
  - intros p. apply find_executable_in_Some.
  - apply find_executable_in_None.
  - intros H. apply find_executable_in_Some in H as (i & dir & _ & _ & Hok & _).
    unfold isfile in Hok. simpl in Hok. discriminate Hok.
Qed.

(** X2: a name that starts with a slash is not searched for: whatever
    the search path holds, [find_executable] returns the name itself
    when it is an executable regular file and [None] otherwise. *)
Theorem find_executable_absolute_name (pf : Platform) (w : World) (name : string) :
  Py.startswith name "/" = true →
  find_executable pf w name =
    if isfile pf w name && access_x pf w name then Some name else None.
Proof.
  intros Habs. unfold find_executable.
  pose proof (split_nonempty ":" (getenv pf "PATH" EmptyString)) as Hne.
  induction (Py.split ":" (getenv pf "PATH" EmptyString)) as [|dir paths IH];
    [contradiction|].
  simpl. rewrite (path_join_absolute dir name Habs).
  destruct (isfile pf w name && access_x pf w name) eqn:Hok; [reflexivity|].
  destruct paths as [|dir' paths]; [reflexivity|].
  apply IH. discriminate.
Qed.

Lemma find_executable_absolute_name_witness :
  find_executable Demo.pf Demo.world "/home/u/prog" = Some "/home/u/prog" ∧
  find_executable Demo.pf_unset Demo.world "/bin/ls" = Some "/bin/ls" ∧
  find_executable Demo.pf Demo.world "/bin/notes.txt" = None.
Proof.
  split; [|split].
  - rewrite (find_executable_absolute_name Demo.pf Demo.world "/home/u/prog");
      reflexivity.
  - rewrite (find_executable_absolute_name Demo.pf_unset Demo.world "/bin/ls");
      reflexivity.
  - rewrite (find_executable_absolute_name Demo.pf Demo.world "/bin/notes.txt");
      reflexivity.
Defined.

(** The members of the enumeration. *)
Lemma get_executables_in_path_members (pf : Platform) (w : World) (x : string) :
  x ∈ get_executables_in_path pf w ↔
  ∃ path, path ∈ Py.split ":" (getenv pf "PATH" EmptyString) ∧
    isdir pf w path = true ∧
    ∃ entries, listdir pf w path = Some entries ∧ x ∈ entries ∧
      isfile pf w (Py.path_join path x) && access_x pf w (Py.path_join path x) = true.
Proof.
  unfold get_executables_in_path.
  rewrite elem_of_sorted_set, (list_elem_of_In (flat_map _ _) x), in_flat_map.
  split.
  - intros (path & Hp & Hx). exists path. rewrite list_elem_of_In. split; [exact Hp|].
    apply list_elem_of_In in Hx.
    apply (elem_of_executables_of pf w (fun p => isfile pf w p && access_x pf w p)) in Hx.
    exact Hx.
  - intros (path & Hp & Hx). exists path. rewrite <- list_elem_of_In. split; [exact Hp|].
    apply list_elem_of_In.
    apply (elem_of_executables_of pf w (fun p => isfile pf w p && access_x pf w p)).
    exact Hx.
Qed.

(** X3: [get_executables_in_path] returns, in strictly increasing
    order and without duplicates, exactly the entries of the
    directories of the search path that are executable regular files.
    A path entry that is not a directory, or a directory that cannot be
    listed, contributes nothing. *)
Theorem get_executables_in_path_spec (pf : Platform) (w : World) :
  (∀ x, x ∈ get_executables_in_path pf w ↔
     ∃ path, path ∈ Py.split ":" (getenv pf "PATH" EmptyString) ∧
       isdir pf w path = true ∧
       ∃ entries, listdir pf w path = Some entries ∧ x ∈ entries ∧
         isfile pf w (Py.path_join path x) && access_x pf w (Py.path_join path x) = true) ∧
  StronglySorted (fun a b => String.compare a b = Lt) (get_executables_in_path pf w) ∧
  NoDup (get_executables_in_path pf w).
Proof.
  split; [|split; [apply sorted_set_StronglySorted | apply sorted_set_NoDup]].
  intros x. apply get_executables_in_path_members.
Qed.

(** X4: every name that [get_executables_in_path] enumerates is found
    by [find_executable] and is a completion candidate. *)
Theorem enumerated_names_resolve (pf : Platform) (w : World) (x : string) :
  x ∈ get_executables_in_path pf w →
  is_Some (find_executable pf w x) ∧ x ∈ all_commands pf w.
Proof.
  intros Hx.
  apply get_executables_in_path_members in Hx
    as (path & Hp & Hdir & entries & Hl & Hin & Hok).
  split.
  - destruct (find_executable pf w x) as [p|] eqn:Hf; [eauto|].
    pose proof (proj1 (find_executable_in_None pf w _ x) Hf path Hp) as Hno.
    rewrite Hno in Hok. discriminate Hok.
  - apply all_commands_spec. right. exists path. split; [exact Hp|]. split; [exact Hdir|].
    exists entries. split; [exact Hl|]. split; [exact Hin|].
    apply andb_true_iff in Hok as [_ Hok]. exact Hok.
Qed.

Lemma enumerated_names_resolve_witness :
  is_Some (find_executable Demo.pf Demo.world "env") ∧
  "env" ∈ all_commands Demo.pf Demo.world.
Proof.
  apply (enumerated_names_resolve Demo.pf Demo.world "env").
  vm_compute. set_solver.
Defined.

(** ** The longest common prefix and the completer *)

Lemma prefix_antisym (a b : string) :
  String.prefix a b = true → String.prefix b a = true → a = b.
Proof.
  intros Hab Hba. apply prefix_same_length; [exact Hab|].
  apply prefix_length in Hab, Hba. lia.
Qed.

Lemma prefix_app_r (a b c : string) :
  String.prefix a b = true → String.prefix a (b ++ c) = true.
Proof.
  revert b. induction a as [|x a IH]; intros b H; [apply prefix_empty|].
  destruct b as [|y b]; [discriminate H|].
  apply prefix_cons in H as [-> H]. simpl. apply prefix_cons. auto.
Qed.

Lemma prefix_app_self (a c : string) : String.prefix a (a ++ c) = true.
Proof. apply prefix_app_r, prefix_refl. Qed.

(** X5: for a non-empty list of words, [longest_common_prefix] is the
    greatest common prefix: a string is a prefix of the result exactly
    when it is a prefix of every word. *)
Theorem longest_common_prefix_greatest (words : list string) (q : string) :
  words ≠ [] →
  String.prefix q (longest_common_prefix words) = true ↔
  ∀ word, word ∈ words → String.prefix q word = true.
Proof.
  intros Hne. split.
  - intros Hq word Hword. eapply prefix_trans; [exact Hq|].
    apply longest_common_prefix_common, Hword.
  - intros Hall. apply longest_common_prefix_longest; assumption.
Qed.

Lemma longest_common_prefix_greatest_witness :
  String.prefix "xyz_" (longest_common_prefix ["xyz_bar"; "xyz_baz"; "xyz_quz"]) = true ↔
  ∀ word, word ∈ ["xyz_bar"; "xyz_baz"; "xyz_quz"] → String.prefix "xyz_" word = true.
Proof.
  apply (longest_common_prefix_greatest ["xyz_bar"; "xyz_baz"; "xyz_quz"] "xyz_").
  discriminate.
Defined.

(** X6: the result of [longest_common_prefix] does not depend on the
    order of the words. *)
Theorem longest_common_prefix_permutation (words words' : list string) :
  words ≡ₚ words' →
  longest_common_prefix words = longest_common_prefix words'.
Proof.
  intros Hperm.
  destruct words as [|w0 ws].
  { apply Permutation_nil_l in Hperm. subst words'. reflexivity. }
  assert (words' ≠ []) as Hne'.
  { intros ->. apply Permutation_nil_r in Hperm. discriminate Hperm. }
  apply prefix_antisym.
  - apply longest_common_prefix_longest; [exact Hne'|].
    intros word Hword. apply longest_common_prefix_common.
    rewrite Hperm. exact Hword.
  - apply longest_common_prefix_longest; [discriminate|].
    intros word Hword. apply longest_common_prefix_common.
    rewrite <- Hperm. exact Hword.
Qed.

Lemma longest_common_prefix_permutation_witness :
  longest_common_prefix ["exit"; "echo"; "env"] =
  longest_common_prefix ["echo"; "env"; "exit"].
Proof.
  apply longest_common_prefix_permutation.
  apply (perm_trans (l' := ["echo"; "exit"; "env"])); [apply perm_swap|].
  apply perm_skip, perm_swap.
Defined.

Section CompleterSoundness.
Context (pf : Platform) (text : string).

Lemma match_at_in_range (ms : list string) (i : Z) :
  ms ≠ [] →
  ∃ m, ms !! Z.to_nat ((i + 1) mod Z.of_nat (length ms)) = Some m.
Proof.
  intros Hne. apply lookup_lt_is_Some.
  assert (0 < Z.of_nat (length ms))%Z as Hpos.
  { destruct ms; [contradiction | simpl; lia]. }
  pose proof (Z.mod_pos_bound (i + 1) (Z.of_nat (length ms)) Hpos). lia.
Qed.

(** One call with [state = 0] on a coherent completer whose last text
    is the text of the call. *)
Lemma completer_sound_same_text (self : CommandCompleter) (w : World) :
  last_text self = text → coherent self →
  ∃ self' r w',
    completer pf self text 0 w = (w', Ok (self', r)) ∧
    matches self' = matches self ∧ last_text self' = text ∧
    (∀ s, r = Some s → String.prefix text s = true) ∧
    files w' = files w ∧ cwd w' = cwd w ∧ file_objects w' = file_objects w ∧
    sys_stderr w' = sys_stderr w ∧ spawned w' = spawned w ∧
    String.prefix (sys_stdout w) (sys_stdout w') = true.
Proof.
  intros Hlast Hcoh. destruct self as [ms lt i n]. simpl in Hlast. subst lt.
  unfold coherent in Hcoh. simpl in Hcoh.
  unfold completer. cbn -[longest_common_prefix Py.join Z.modulo Z.of_nat length].
  rewrite String.eqb_refl. cbn -[longest_common_prefix Py.join Z.modulo Z.of_nat length].
  destruct ms as [|m1 [|m2 ms]].
  - eexists _, _, _. split; [reflexivity|].
    repeat split; try reflexivity; [discriminate | apply prefix_refl].
  - eexists _, _, _. split; [reflexivity|].
    repeat split; try reflexivity; [|apply prefix_refl].
    intros s [= <-]. apply prefix_app_r. apply Hcoh. left.
  - cbn -[longest_common_prefix Py.join Z.modulo Z.of_nat length].
    destruct (String.eqb (longest_common_prefix (m1 :: m2 :: ms)) text) eqn:Hlcp;
      cbn -[longest_common_prefix Py.join Z.modulo Z.of_nat length].
    + destruct (n + 1 =? 1)%nat; [|destruct (n + 1 =? 2)%nat].
      * eexists _, _, _. split; [reflexivity|].
        repeat split; try reflexivity; [discriminate | apply prefix_app_self].
      * eexists _, _, _. split; [reflexivity|].
        repeat split; try reflexivity; [discriminate|]. simpl.
        apply prefix_app_r, prefix_app_self.
      * destruct (match_at_in_range (m1 :: m2 :: ms) i) as [m Hm]; [discriminate|].
        eexists _, _, _. split; [reflexivity|].
        repeat split; try reflexivity; [|apply prefix_refl].
        intros s [= <-]. unfold match_at.
        cbn -[longest_common_prefix Py.join Z.modulo Z.of_nat length].
        change (length (m1 :: m2 :: ms)) with (S (S (length ms))) in Hm.
        rewrite Hm. simpl. apply prefix_app_r. apply Hcoh.
        eapply list_elem_of_lookup_2, Hm.
    + eexists _, _, _. split; [reflexivity|].
      repeat split; try reflexivity; [|apply prefix_refl].
      intros s [= <-].
      apply (longest_common_prefix_longest (m1 :: m2 :: ms) text); [discriminate|].
      exact Hcoh.
Qed.

End CompleterSoundness.

(** X7: on a completer whose matches all start with its last text (as
    they do from creation on), a call of [completer] never raises; it
    leaves the completer in such a state; whatever it returns starts
    with the text it was given; and it changes nothing in the world
    except that it may add output to the inherited stdout. *)
Theorem completer_sound (pf : Platform) (self : CommandCompleter) (text : string)
    (state : nat) (w : World) :
  coherent self →
  ∃ self' r w',
    completer pf self text state w = (w', Ok (self', r)) ∧
    coherent self' ∧
    (∀ s, r = Some s → String.prefix text s = true) ∧
    files w' = files w ∧ cwd w' = cwd w ∧ file_objects w' = file_objects w ∧
    sys_stderr w' = sys_stderr w ∧ spawned w' = spawned w ∧
    String.prefix (sys_stdout w) (sys_stdout w') = true.
Proof.
  intros Hcoh.
  destruct state as [|state].
  - destruct (String.eqb_spec text (last_text self)) as [Heq | Hnew].
    + destruct (completer_sound_same_text pf text self w (eq_sym Heq) Hcoh)
        as (self' & r & w' & Hc & Hm & Hl & Hr & Hrest).
      exists self', r, w'. split; [exact Hc|]. split; [|split; [exact Hr | exact Hrest]].
      intros m. rewrite Hm, Hl, Heq. apply Hcoh.
    + rewrite completer_new_text by exact Hnew.
      set (fresh := Build_CommandCompleter
                      (filter (fun cmd => Is_true (Py.startswith cmd text))
                         (all_commands pf w)) text (-1) 0).
      assert (coherent fresh) as Hfresh.
      { intros m [Hm _]%list_elem_of_filter. apply Is_true_true, Hm. }
      destruct (completer_sound_same_text pf text fresh w eq_refl Hfresh)
        as (self' & r & w' & Hc & Hm & Hl & Hr & Hrest).
      exists self', r, w'. split; [exact Hc|]. split; [|split; [exact Hr | exact Hrest]].
      intros m. rewrite Hm, Hl. apply Hfresh.
  - exists self, None, w. split; [reflexivity|]. split; [exact Hcoh|].
    repeat split; try reflexivity; [discriminate | apply prefix_refl].
Qed.

Lemma completer_sound_witness :
  ∃ self' r w',
    completer Demo.pf CommandCompleter_init "e" 0 Demo.world = (w', Ok (self', r)) ∧
    coherent self' ∧
    (∀ s, r = Some s → String.prefix "e" s = true) ∧
    files w' = files Demo.world ∧ cwd w' = cwd Demo.world ∧
    file_objects w' = file_objects Demo.world ∧
    sys_stderr w' = sys_stderr Demo.world ∧ spawned w' = spawned Demo.world ∧
    String.prefix (sys_stdout Demo.world) (sys_stdout w') = true.
Proof.
  apply (completer_sound Demo.pf CommandCompleter_init "e" 0 Demo.world).
  intros m Hm. inversion Hm.
Defined.

(** ** The built-in commands and the dispatch *)

Lemma decimal_value_nonneg (s : string) (acc : Z) :
  Py.all_chars Py.is_decimal_char s = true → (0 ≤ acc)%Z →
  (0 ≤ Py.decimal_value acc s)%Z.
Proof.
  revert acc. induction s as [|c s IH]; intros acc Hs Hacc; simpl; [exact Hacc|].
  simpl in Hs. apply andb_true_iff in Hs as [Hc Hs]. apply IH; [exact Hs|].
  unfold Py.is_decimal_char in Hc. apply andb_true_iff in Hc as [Hlo _].
  apply Nat.leb_le in Hlo. lia.
Qed.

(** X9: [exit] never returns and changes nothing.  With one argument
    made of at most 4300 decimal digits the process ends with the value
    of the digits, which is never negative and ignores leading zeros;
    with more than 4300 decimal digits [int] refuses the argument and
    [exit] raises [ValueError] instead of ending the process; with no
    argument, with several arguments, or with one argument that
    [isdigit] rejects, the process ends with status 0. *)
Theorem exit_status (stdout stderr : stream) (w : World) :
  (∀ args, ∃ e, ExitCommand_execute args stdout stderr w = (w, Raise e)) ∧
  (∀ a, a ≠ EmptyString → Py.all_chars Py.is_decimal_char a = true →
     (Z.of_nat (String.length a) < Py.int_max_str_digits)%Z →
     ExitCommand_execute [a] stdout stderr w =
       (w, Raise (SystemExit (Py.decimal_value 0 a))) ∧
     (0 ≤ Py.decimal_value 0 a)%Z ∧
     ExitCommand_execute [String "0" a] stdout stderr w =
       (w, Raise (SystemExit (Py.decimal_value 0 a)))) ∧
  (∀ a, a ≠ EmptyString → Py.all_chars Py.is_decimal_char a = true →
     (Z.of_nat (String.length a) = Py.int_max_str_digits)%Z →
     ExitCommand_execute [a] stdout stderr w =
       (w, Raise (SystemExit (Py.decimal_value 0 a)))) ∧
  (∀ a, Py.all_chars Py.is_decimal_char a = true →
     (Py.int_max_str_digits < Z.of_nat (String.length a))%Z →
     ∃ msg, ExitCommand_execute [a] stdout stderr w = (w, Raise (ValueError msg))) ∧
  (∀ args, (length args ≠ 1 ∨ ∃ a, args = [a] ∧ Py.isdigit a = false) →
     ExitCommand_execute args stdout stderr w = (w, Raise (SystemExit 0))).
Proof.
  split; [|split; [|split; [|split]]].
  - intros args. unfold ExitCommand_execute, sys_exit, int_, raise, bind, ret.
    destruct args as [|a [|b args]]; [eauto | | eauto].
    destruct (Py.isdigit a); [|eauto]. destruct (Py.int a); eauto.
  - intros a Hne Hdec Hlen. split; [apply ExitCommand_decimal; [assumption..|lia]|].
    split; [apply decimal_value_nonneg; [exact Hdec | lia]|].
    rewrite (ExitCommand_decimal (String "0" a)); [reflexivity | discriminate | |].
    + simpl. exact Hdec.
    + cbn [String.length]. lia.
  - intros a Hne Hdec Hlen. apply ExitCommand_decimal; [assumption..|lia].
  - intros a Hdec Hlen. eexists. apply ExitCommand_too_long; assumption.
  - intros args H. apply ExitCommand_zero. exact H.
Qed.

Lemma exit_status_witness :
  (ExitCommand_execute ["42"] SysStdout SysStderr Demo.world =
     (Demo.world, Raise (SystemExit 42)) ∧
   (0 ≤ 42)%Z ∧
   ExitCommand_execute ["042"] SysStdout SysStderr Demo.world =
     (Demo.world, Raise (SystemExit 42))) ∧
  (let a := string_of_list_ascii (repeat "1"%char (Z.to_nat 4300)) in
   ExitCommand_execute [a] SysStdout SysStderr Demo.world =
     (Demo.world, Raise (SystemExit (Py.decimal_value 0 a)))) ∧
  (let a := string_of_list_ascii (repeat "1"%char (Z.to_nat 4301)) in
   ∃ msg, ExitCommand_execute [a] SysStdout SysStderr Demo.world =
            (Demo.world, Raise (ValueError msg))) ∧
  ExitCommand_execute ["1"; "2"] SysStdout SysStderr Demo.world =
    (Demo.world, Raise (SystemExit 0)) ∧
  ExitCommand_execute ["-1"] SysStdout SysStderr Demo.world =
    (Demo.world, Raise (SystemExit 0)).
Proof.
  destruct (exit_status SysStdout SysStderr Demo.world)
    as (_ & Hdec & Hmax & Hlong & Hzero).
  split; [apply (Hdec "42"); [discriminate | reflexivity | reflexivity]|].
  split.
  { apply (Hmax (string_of_list_ascii (repeat "1"%char (Z.to_nat 4300))));
      [discriminate | vm_compute; reflexivity | vm_compute; reflexivity]. }
  split.
  { apply (Hlong (string_of_list_ascii (repeat "1"%char (Z.to_nat 4301))));
      vm_compute; reflexivity. }
  split; [apply Hzero; left; simpl; lia|].
  apply Hzero. right. exists "-1". split; reflexivity.
Defined.

(** X10: [type] and the dispatch classify a name in the same way and
    in the same order: a registered name is a built-in, whatever the
    search path holds; otherwise the name is what [find_executable]
    returns for it; otherwise it is not found.  [type] looks at its
    first argument only. *)
Theorem type_agrees_with_dispatch (pf : Platform) (self : CommandRegistry)
    (name : string) (rest args : list string) (stdout stderr : stream) (w : World) :
  TypeCommand_execute pf self (name :: rest) stdout stderr w =
    match commands self !! name, find_executable pf w name with
    | Some _, _ => print (name ++ " is a shell builtin") stdout w
    | None, Some p => print (name ++ " is " ++ p) stdout w
    | None, None => print (name ++ ": not found") stderr w
    end ∧
  _execute_command pf self (name :: args) stdout stderr w =
    match commands self !! name, find_executable pf w name with
    | Some command, _ => Command_execute pf self command args stdout stderr w
    | None, Some _ =>
        try_except (subprocess_run pf (name :: args) stdout stderr) is_Exception
          (fun e => print ("Error running " ++ name ++ ": " ++ str e) SysStderr) w
    | None, None => print (name ++ ": command not found") stderr w
    end.
Proof.
  pose proof (find_executable_in_truthy pf w
                (Py.split ":" (getenv pf "PATH" EmptyString)) name) as Htruthy.
  fold (find_executable pf w name) in Htruthy.
  split.
  - unfold TypeCommand_execute.
    destruct (commands self !! name) as [c|]; simpl; [reflexivity|].
    rewrite Htruthy. destruct (find_executable pf w name); reflexivity.
  - unfold _execute_command.
    destruct (commands self !! name) as [c|]; [reflexivity|].
    unfold run_external_command. rewrite Htruthy.
    destruct (find_executable pf w name); reflexivity.
Qed.



(** X12: a registered name is never run as an external program: its
    handler spawns no process and opens or closes no file object, even
    when an executable of the same name is on the search path. *)
Theorem builtins_never_spawn (pf : Platform) (self : CommandRegistry) (name : string)
    (command : Command) (args : list string) (stdout stderr : stream) (w : World) :
  commands self !! name = Some command →
  spawned (_execute_command pf self (name :: args) stdout stderr w).1 = spawned w ∧
  file_objects (_execute_command pf self (name :: args) stdout stderr w).1 =
    file_objects w.
Proof.
  intros Hreg. split; [|apply _execute_command_file_objects].
  unfold _execute_command. rewrite Hreg.
  apply (Command_execute_keeps pf (fun a b => spawned b = spawned a)); try reflexivity.
  intros a b c H1 H2. congruence.
Qed.

Lemma builtins_never_spawn_witness :
  spawned (_execute_command Demo.pf (register "cat" EchoCommand main_registry)
             ["cat"; "x"] SysStdout SysStderr Demo.world).1 = [] ∧
  file_objects (_execute_command Demo.pf (register "cat" EchoCommand main_registry)
                  ["cat"; "x"] SysStdout SysStderr Demo.world).1 = [].
Proof.
  apply (builtins_never_spawn Demo.pf (register "cat" EchoCommand main_registry) "cat"
           EchoCommand ["x"] SysStdout SysStderr Demo.world).
  reflexivity.
Defined.

(** ** Whole invocations *)

Section Invocations.
Context (pf : Platform).



(** A sequence without operator tokens has no honoured operator. *)
Lemma honoured_none (parts : list string) :
  (∀ t, t ∈ parts → t ∉ operator_tokens) →
  Honoured.stdout parts = None ∧ Honoured.stderr parts = None.
Proof.
  intros Hno.
  assert (∀ op, op ∈ operator_tokens → Py.index parts op = None) as Habs.
  { intros op Hop. apply index_None. intros Hin. exact (Hno op Hin Hop). }
  unfold Honoured.stdout, Honoured.stderr, operator_tokens in *.
  rewrite !Habs by set_solver. split; reflexivity.
Qed.


End Invocations.



(** X15: a line without any of the six operator tokens opens no file:
    [execute] hands all its tokens to the dispatch with the two
    inherited streams, and its outcome is the outcome of that
    dispatch. *)
Theorem execute_without_operators (pf : Platform) (self : CommandRegistry)
    (parts : list string) (w : World) :
  (∀ t, t ∈ parts → t ∉ operator_tokens) →
  execute_parts pf self parts w = _execute_command pf self parts SysStdout SysStderr w.
Proof.
  intros Hno. destruct (honoured_none parts Hno) as [Hout Herr].
  unfold execute_parts, bind.
  rewrite stdout_redirection_honoured, Hout. simpl.
  rewrite stderr_redirection_honoured, Herr. simpl.
  destruct (_execute_command pf self parts SysStdout SysStderr w) as [w1 [[]|e]];
    reflexivity.
Qed.

Lemma execute_without_operators_witness :
  execute_parts Demo.pf main_registry ["type"; "cat"; "pwd"] Demo.world =
  _execute_command Demo.pf main_registry ["type"; "cat"; "pwd"] SysStdout SysStderr Demo.world.
Proof.
  apply (execute_without_operators Demo.pf main_registry ["type"; "cat"; "pwd"] Demo.world).
  intros t Ht Hin. unfold operator_tokens in Hin.
  repeat (apply elem_of_cons in Ht as [-> | Ht]); try (inversion Ht; fail);
    repeat (apply elem_of_cons in Hin as [Hin | Hin]; [discriminate Hin|]);
    inversion Hin.
Defined.

(** ** What an invocation leaves in place *)

Section KeepsExisting.
Context (pf : Platform).

Lemma objects_kept_refl (w : World) : objects_kept w w.
Proof. intros fd _. reflexivity. Qed.

Lemma objects_kept_same (w a : World) :
  file_objects a = file_objects w → objects_kept w a.
Proof. intros H fd _. rewrite H. reflexivity. Qed.

Lemma objects_kept_length (w a : World) :
  objects_kept w a → (length (file_objects w) ≤ length (file_objects a))%nat.
Proof.
  intros Hobj.
  destruct (decide (length (file_objects w) ≤ length (file_objects a))%nat) as [H|H];
    [exact H | exfalso].
  assert (length (file_objects a) < length (file_objects w))%nat as Hlt by lia.
  specialize (Hobj _ Hlt).
  rewrite (lookup_ge_None_2 (file_objects a)) in Hobj by lia.
  symmetry in Hobj. apply lookup_ge_None_1 in Hobj. lia.
Qed.

Lemma objects_kept_trans (w a b : World) :
  objects_kept w a → objects_kept a b → objects_kept w b.
Proof.
  intros Hwa Hab fd Hfd. pose proof (objects_kept_length w a Hwa) as Hlen.
  rewrite Hab by lia. apply Hwa, Hfd.
Qed.

(** One [try] block keeps the file objects there are and removes no
    file, and the target it opens is a new file object. *)
Lemma redirection_keeps_existing (i : nat) (parts sliced : list string)
    (mode : open_mode) (what : string) (w : World) :
  objects_kept w (redirection pf (ret i) parts sliced mode what w).1 ∧
  files_survive w (redirection pf (ret i) parts sliced mode what w).1 ∧
  ∀ cp t, (redirection pf (ret i) parts sliced mode what w).2 = Ok (Some (cp, t)) →
    fresh_for w t.
Proof.
  rewrite redirection_at. destruct (parts !! (i + 1)) as [file|]; simpl.
  - destruct (open_cases pf file mode w)
      as [(msg & -> & _) | (_ & _ & w1 & -> & Hobj & Hf & _ & _ & _ & Hs)]; simpl.
    + split; [apply objects_kept_same; reflexivity|].
      split; [apply files_survive_same; auto | discriminate].
    + split; [|split].
      * intros fd Hfd. rewrite Hobj. apply lookup_app_l. exact Hfd.
      * apply files_survive_same; [exact Hs|]. intros p Hp. rewrite Hf.
        destruct (decide (realpath pf (cwd w) file = p)) as [->|Hne].
        -- rewrite lookup_insert_eq. eauto.
        -- rewrite lookup_insert_ne by exact Hne. exact Hp.
      * intros cp t [= _ <-] fd [= <-]. lia.
  - split; [apply objects_kept_same; reflexivity|].
    split; [apply files_survive_same; auto | discriminate].
Qed.

Lemma stdout_redirection_keeps_existing (parts : list string) (w : World) :
  objects_kept w (stdout_redirection pf parts w).1 ∧
  files_survive w (stdout_redirection pf parts w).1 ∧
  ∀ cp t, (stdout_redirection pf parts w).2 = Ok (Some (cp, t)) → fresh_for w t.
Proof.
  rewrite stdout_redirection_honoured.
  destruct (Honoured.stdout parts) as [[i []]|]; try apply redirection_keeps_existing.
  split; [apply objects_kept_refl|]. split; [apply files_survive_refl|].
  intros cp t [= _ <-] fd Hfd. discriminate Hfd.
Qed.

Lemma stderr_redirection_keeps_existing (parts sliced : list string) (w : World) :
  objects_kept w (stderr_redirection pf parts sliced w).1 ∧
  files_survive w (stderr_redirection pf parts sliced w).1 ∧
  ∀ cp t, (stderr_redirection pf parts sliced w).2 = Ok (Some (cp, t)) → fresh_for w t.
Proof.
  rewrite stderr_redirection_honoured.
  destruct (Honoured.stderr parts) as [[i []]|]; try apply redirection_keeps_existing.
  split; [apply objects_kept_refl|]. split; [apply files_survive_refl|].
  intros cp t [= _ <-] fd Hfd. discriminate Hfd.
Qed.

Lemma fresh_for_later (w a : World) (t : stream) :
  objects_kept w a → fresh_for a t → fresh_for w t.
Proof.
  intros Hk Hf fd Ht. specialize (Hf fd Ht).
  apply objects_kept_length in Hk. lia.
Qed.

(** Closing a target that is new for [w] keeps the file objects of [w]. *)
Lemma close_unless_objects_kept (w a : World) (inherited t : stream) :
  fresh_for w t → objects_kept w a →
  objects_kept w (close_unless inherited t a).1.
Proof.
  intros Hfresh Hobj fd Hfd. rewrite <- (Hobj fd Hfd).
  unfold close_unless. destruct (bool_decide _); [reflexivity|].
  destruct t as [| |fd']; simpl; try reflexivity.
  destruct (file_objects a !! fd') as [fo|]; simpl; [|reflexivity].
  apply list_lookup_insert_ne. specialize (Hfresh fd' eq_refl). lia.
Qed.

(** The whole of [execute]: the file objects. *)
Lemma execute_parts_objects_kept (self : CommandRegistry) (parts : list string)
    (w : World) :
  objects_kept w (execute_parts pf self parts w).1.
Proof.
  unfold execute_parts, bind.
  destruct (stdout_redirection_keeps_existing parts w) as (K1 & _ & F1).
  destruct (stdout_redirection pf parts w) as [w1 [[[cp out]|]|e]]; simpl in *;
    try exact K1.
  specialize (F1 cp out eq_refl).
  destruct (stderr_redirection_keeps_existing parts cp w1) as (K2 & _ & F2).
  destruct (stderr_redirection pf parts cp w1) as [w2 [[[cp' err]|]|e]]; simpl in *;
    try (eapply objects_kept_trans; [exact K1 | exact K2]).
  specialize (F2 cp' err eq_refl).
  pose proof (objects_kept_same _ _ (_execute_command_file_objects pf self cp' out err w2))
    as K3.
  assert (objects_kept w w2) as K12 by (eapply objects_kept_trans; eassumption).
  assert (fresh_for w err) as Ferr by exact (fresh_for_later _ _ _ K1 F2).
  destruct (_execute_command pf self cp' out err w2) as [w3 [[]|e]]; simpl in *;
    [|eapply objects_kept_trans; eassumption].
  assert (objects_kept w w3) as K by (eapply objects_kept_trans; eassumption).
  pose proof (close_unless_objects_kept w w3 SysStdout out F1 K) as K4.
  pose proof (close_unless_Ok SysStdout out w3) as Hok.
  destruct (close_unless SysStdout out w3) as [w4 r4]; simpl in *. subst r4.
  apply close_unless_objects_kept; assumption.
Qed.

(** The whole of [execute]: the files. *)
Lemma execute_parts_files_survive (self : CommandRegistry) (parts : list string)
    (w : World) :
  files_survive w (execute_parts pf self parts w).1.
Proof.
  unfold execute_parts, bind.
  destruct (stdout_redirection_keeps_existing parts w) as (_ & K1 & _).
  destruct (stdout_redirection pf parts w) as [w1 [[[cp out]|]|e]]; simpl in *;
    try exact K1.
  destruct (stderr_redirection_keeps_existing parts cp w1) as (_ & K2 & _).
  destruct (stderr_redirection pf parts cp w1) as [w2 [[[cp' err]|]|e]]; simpl in *;
    try (eapply files_survive_trans; [exact K1 | exact K2]).
  eapply files_survive_trans; [exact K1|].
  eapply files_survive_trans; [exact K2|].
  apply (dispatch_then_close_files_survive pf self cp' out err w2).
Qed.

End KeepsExisting.

(** X16: whatever the line and whatever its outcome, [execute] leaves
    every file object that existed before as it was (it closes only
    file objects it opened itself), and it removes no file itself: when
    it ends without having run a child process, every file that existed
    before still exists.  A child process that was run may have removed
    files: on [env rm log > log] with a child that removes the file its
    last argument names, the file that the redirection created is gone
    when [execute] returns. *)
Theorem execute_keeps_existing (pf : Platform) (self : CommandRegistry)
    (parts : list string) (w : World) :
  objects_kept w (execute_parts pf self parts w).1 ∧
  (spawned (execute_parts pf self parts w).1 = spawned w →
   ∀ p, is_Some (files w !! p) → is_Some (files (execute_parts pf self parts w).1 !! p)) ∧
  (let gone := execute (removing_child Demo.pf) main_registry "env rm log > log" Demo.world in
   is_Some (files Demo.world !! "/home/u/log") ∧
   gone.2 = Ok tt ∧ files gone.1 !! "/home/u/log" = None ∧
   spawned gone.1 = [(["env"; "rm"; "log"], FileObj 0, SysStderr)]).
Proof.
  split; [apply execute_parts_objects_kept|].
  split; [apply (execute_parts_files_survive pf self parts w)|].
  vm_compute. repeat split; eauto.
Qed.

Lemma execute_keeps_existing_witness :
  is_Some (files (execute_parts Demo.pf main_registry ["echo"; "a"; ">"; "f"] Demo.world).1
             !! "/home/u/log").
Proof.
  apply (proj1 (proj2 (execute_keeps_existing Demo.pf main_registry ["echo"; "a"; ">"; "f"]
                         Demo.world))).
  - vm_compute. reflexivity.
  - vm_compute. eauto.
Defined.

(** ** The read-eval-print loop *)

Section Loop.
Context (pf : Platform) (registry : CommandRegistry).

(** The world in which a line is executed: the prompt has been written. *)
Lemma main_loop_cons (line : string) (rest : list string) (w : World) :
  main_loop pf registry (line :: rest) w =
    match execute pf registry line (set_sys_stdout (sys_stdout w ++ "$ ") w) with
    | (w1, Ok _) => main_loop pf registry rest w1
    | (w1, Raise e) =>
        if is_Exception e
        then main_loop pf registry rest
               (set_sys_stderr (sys_stderr w1 ++ ("Error: " ++ str e) ++ newline) w1)
        else (w1, Raise e)
    end.
Proof.
  cbn [main_loop]. unfold main_step, bind, try_except. cbn [write].
  destruct (execute pf registry line _) as [w1 [[]|e]]; [reflexivity|].
  destruct (is_Exception e); reflexivity.
Qed.

End Loop.

(** X17: the loop never dies of an [Exception].  Whatever the lines and
    whatever the commands do, [main] either reaches the end of input or
    ends with a [SystemExit] that the execution of one of the lines
    raised. *)
Theorem main_loop_outcome (pf : Platform) (registry : CommandRegistry)
    (lines : list string) (w : World) :
  (main_loop pf registry lines w).2 = Ok tt ∨
  ∃ code line wl, line ∈ lines ∧
    (execute pf registry line wl).2 = Raise (SystemExit code) ∧
    (main_loop pf registry lines w).2 = Raise (SystemExit code).
Proof.
  revert w. induction lines as [|line rest IH]; intros w.
  - left. reflexivity.
  - rewrite main_loop_cons.
    pose (wp := set_sys_stdout (sys_stdout w ++ "$ ") w). fold wp.
    destruct (execute pf registry line wp) as [w1 [[]|e]] eqn:Hex.
    + destruct (IH w1) as [H | (code & l & wl & Hin & Hl & H)]; [left; exact H|].
      right. exists code, l, wl. split; [right; exact Hin | auto].
    + destruct e as [code| | | | |]; cbn [is_Exception];
        try (match goal with
             | |- context [main_loop pf registry rest ?w'] =>
                 destruct (IH w') as [H | (code & l & wl & Hin & Hl & H)];
                   [left; exact H
                   | right; exists code, l, wl; split; [right; exact Hin | auto]]
             end).
      right. exists code, line, wp. rewrite Hex. split; [left | auto].
Qed.

Lemma decimal_not_operator (a : string) :
  Py.all_chars Py.is_decimal_char a = true → a ∉ operator_tokens.
Proof.
  intros Hdec Hin. unfold operator_tokens in Hin.
  repeat (apply elem_of_cons in Hin as [-> | Hin]; [discriminate Hdec|]).
  inversion Hin.
Qed.

(** A line [exit <decimal digits>] is handed to [exit] with the two
    inherited streams. *)
Lemma execute_exit_decimal (pf : Platform) (line a : string) (w : World) :
  shlex_split pf line = inr ["exit"; a] →
  Py.all_chars Py.is_decimal_char a = true →
  execute pf main_registry line w = ExitCommand_execute [a] SysStdout SysStderr w.
Proof.
  intros Hsplit Hdec. unfold execute. rewrite Hsplit.
  assert (∀ t, t ∈ ["exit"; a] → t ∉ operator_tokens) as Hno.
  { intros t Ht. apply elem_of_cons in Ht as [-> | Ht].
    - intros Hin. unfold operator_tokens in Hin.
      repeat (apply elem_of_cons in Hin as [Hin | Hin]; [discriminate Hin|]).
      inversion Hin.
    - apply list_elem_of_singleton in Ht as ->. apply decimal_not_operator, Hdec. }
  destruct (honoured_none _ Hno) as [Hout Herr].
  unfold execute_parts, bind.
  rewrite stdout_redirection_honoured, Hout. cbn [ret].
  rewrite stderr_redirection_honoured, Herr. cbn [ret].
  change (_execute_command pf main_registry ["exit"; a] SysStdout SysStderr)
    with (ExitCommand_execute [a] SysStdout SysStderr).
  destruct (ExitCommand_execute [a] SysStdout SysStderr w) as [w1 [[]|e]]; reflexivity.
Qed.

(** X19: a line that tokenises to [exit] alone, or to [exit] and one
    argument of at most 4300 decimal digits, ends the session once its
    prompt is written: the process status is 0, respectively the value
    of the digits, nothing else is written, and the lines that follow
    are never read.  With more than 4300 decimal digits the session
    does not end: the refusal of [int] is reported on [sys.stderr] and
    the lines that follow are read. *)
Theorem exit_ends_session (pf : Platform) (line : string) (rest : list string)
    (w : World) :
  (shlex_split pf line = inr ["exit"] →
     main pf (line :: rest) w =
       (set_sys_stdout (sys_stdout w ++ "$ ") w, Raise (SystemExit 0))) ∧
  (∀ a, shlex_split pf line = inr ["exit"; a] →
     a ≠ EmptyString → Py.all_chars Py.is_decimal_char a = true →
     (Z.of_nat (String.length a) ≤ Py.int_max_str_digits)%Z →
     main pf (line :: rest) w =
       (set_sys_stdout (sys_stdout w ++ "$ ") w,
        Raise (SystemExit (Py.decimal_value 0 a)))) ∧
  (∀ a, shlex_split pf line = inr ["exit"; a] →
     Py.all_chars Py.is_decimal_char a = true →
     (Py.int_max_str_digits < Z.of_nat (String.length a))%Z →
     ∃ msg,
       main pf (line :: rest) w =
         main pf rest
           (set_sys_stderr (sys_stderr w ++ "Error: " ++ msg ++ newline)
              (set_sys_stdout (sys_stdout w ++ "$ ") w))).
Proof.
  split; [|split].
  - intros Hsplit. unfold main. rewrite main_loop_cons. unfold execute. rewrite Hsplit.
    assert (∀ t, t ∈ ["exit"] → t ∉ operator_tokens) as Hno.
    { intros t Ht Hin. apply list_elem_of_singleton in Ht as ->.
      unfold operator_tokens in Hin.
      repeat (apply elem_of_cons in Hin as [Hin | Hin]; [discriminate Hin|]).
      inversion Hin. }
    destruct (honoured_none _ Hno) as [Hout Herr].
    unfold execute_parts, bind.
    rewrite stdout_redirection_honoured, Hout. cbn [ret].
    rewrite stderr_redirection_honoured, Herr. reflexivity.
  - intros a Hsplit Hne Hdec Hlen. unfold main. rewrite main_loop_cons.
    rewrite (execute_exit_decimal pf line a _ Hsplit Hdec).
    rewrite (ExitCommand_decimal a _ _ _ Hne Hdec Hlen). reflexivity.
  - intros a Hsplit Hdec Hlen. eexists. unfold main. rewrite main_loop_cons.
    rewrite (execute_exit_decimal pf line a _ Hsplit Hdec).
    rewrite (ExitCommand_too_long a _ _ _ Hdec Hlen). reflexivity.
Qed.

Lemma exit_ends_session_witness :
  main Demo.pf ["exit"; "pwd"] Demo.world =
    (set_sys_stdout (EmptyString ++ "$ ") Demo.world, Raise (SystemExit 0)) ∧
  main Demo.pf ["exit 042"; "pwd"] Demo.world =
    (set_sys_stdout (EmptyString ++ "$ ") Demo.world, Raise (SystemExit 42)) ∧
  (let a := string_of_list_ascii (repeat "9"%char (Z.to_nat 4301)) in
   ∃ msg,
     main Demo.pf ["exit " ++ a; "pwd"] Demo.world =
       main Demo.pf ["pwd"]
         (set_sys_stderr (EmptyString ++ "Error: " ++ msg ++ newline)
            (set_sys_stdout (EmptyString ++ "$ ") Demo.world))).
Proof.
  split; [|split].
  - apply (exit_ends_session Demo.pf "exit" ["pwd"] Demo.world). reflexivity.
  - apply (proj1 (proj2 (exit_ends_session Demo.pf "exit 042" ["pwd"] Demo.world)) "042");
      [reflexivity | discriminate | reflexivity | vm_compute; discriminate].
  - intros a.
    refine (proj2 (proj2 (exit_ends_session Demo.pf ("exit " ++ a) ["pwd"] Demo.world))
              a _ _ _); vm_compute; reflexivity.
Defined.

(** X20: after a [cd] that succeeds, [pwd] prints the directory that
    [cd] entered: the resolved target (the home directory for [~]), on a
    line of its own, on the stdout target given to [pwd]; the [cd]
    itself writes nothing. *)
Theorem pwd_after_cd (pf : Platform) (arg : string) (out err out' err' : stream)
    (w : World) :
  let target := if String.eqb arg "~" then getenv pf "HOME" "/" else arg in
  let entered := realpath pf (cwd w) target in
  isdir pf w target = true → chdir_error pf entered = None →
  (_execute_command pf main_registry ["cd"; arg] out err >>
   _execute_command pf main_registry ["pwd"] out' err') w =
    write out' (entered ++ newline) (set_cwd entered w).
Proof.
  intros target entered Hdir Herr. unfold bind.
  change (_execute_command pf main_registry ["cd"; arg] out err)
    with (CdCommand_execute pf [arg] out err).
  change (_execute_command pf main_registry ["pwd"] out' err')
    with (PwdCommand_execute [] out' err').
  unfold CdCommand_execute. fold target. rewrite Hdir.
  unfold try_except, chdir. fold entered. rewrite Herr. reflexivity.
Qed.

Lemma pwd_after_cd_witness :
  (_execute_command Demo.pf main_registry ["cd"; "/bin"] SysStdout SysStderr >>
   _execute_command Demo.pf main_registry ["pwd"] SysStdout SysStderr) Demo.world =
    write SysStdout ("/bin" ++ newline) (set_cwd "/bin" Demo.world).
Proof.
  apply (pwd_after_cd Demo.pf "/bin" SysStdout SysStderr SysStdout SysStderr Demo.world);
    reflexivity.
Defined.

(** ** What [cd] does *)

(** X21: what [cd] does for every argument list, on a stderr target
    that can be written to.  With no or several arguments the line
    [cd: missing operand] is added to the stderr target and nothing else
    changes.  With one argument (the home-directory value standing for
    [~]): when [os.path.isdir] rejects the target, the line
    [cd: <target>: No such file or directory] is added to the stderr
    target and nothing else changes; when it accepts the target and
    [os.chdir] raises [PermissionError], the line
    [cd: <target>: Permission denied] is added to the stderr target and
    nothing else changes; when [os.chdir] succeeds, the working
    directory is the resolved target and nothing is written; and any
    other exception of [os.chdir] leaves [cd] unhandled, with nothing
    changed. *)
Theorem cd_outcomes (pf : Platform) (w : World) (stdout stderr : stream) :
  writable w stderr →
  (∀ args, length args ≠ 1 →
     ∃ w', CdCommand_execute pf args stdout stderr w = (w', Ok tt) ∧
           appended stderr ("cd: missing operand" ++ newline) w w') ∧
  (∀ arg,
     let target := if String.eqb arg "~" then getenv pf "HOME" "/" else arg in
     let entered := realpath pf (cwd w) target in
     (isdir pf w target = false →
        ∃ w', CdCommand_execute pf [arg] stdout stderr w = (w', Ok tt) ∧
              appended stderr (("cd: " ++ target ++ ": No such file or directory") ++ newline)
                w w') ∧
     (isdir pf w target = true → ∀ m, chdir_error pf entered = Some (PermissionError m) →
        ∃ w', CdCommand_execute pf [arg] stdout stderr w = (w', Ok tt) ∧
              appended stderr (("cd: " ++ target ++ ": Permission denied") ++ newline) w w') ∧
     (isdir pf w target = true → chdir_error pf entered = None →
        CdCommand_execute pf [arg] stdout stderr w = (set_cwd entered w, Ok tt)) ∧
     (isdir pf w target = true → ∀ e, chdir_error pf entered = Some e →
        is_PermissionError e = false →
        CdCommand_execute pf [arg] stdout stderr w = (w, Raise e))).
Proof.
  intros Hw. split.
  - intros args Hlen.
    assert (CdCommand_execute pf args stdout stderr w = print "cd: missing operand" stderr w)
      as ->.
    { destruct args as [|a [|b args]]; simpl in *; try reflexivity. lia. }
    apply print_appended, Hw.
  - intros arg target entered. unfold CdCommand_execute. fold target.
    split; [|split; [|split]].
    + intros ->. apply print_appended, Hw.
    + intros -> m Herr. unfold try_except, chdir. fold entered. rewrite Herr. simpl.
      apply print_appended, Hw.
    + intros -> Herr. unfold try_except, chdir. fold entered. rewrite Herr. reflexivity.
    + intros -> e Herr He. unfold try_except, chdir. fold entered. rewrite Herr, He.
      reflexivity.
Qed.

Lemma cd_outcomes_witness :
  (∃ w', CdCommand_execute Demo.pf [] SysStdout SysStderr Demo.world = (w', Ok tt) ∧
         w' = set_sys_stderr (EmptyString ++ "cd: missing operand" ++ newline) Demo.world) ∧
  (∃ w', CdCommand_execute Demo.pf ["/nonexistent"] SysStdout SysStderr Demo.world =
           (w', Ok tt) ∧
         w' = set_sys_stderr
                (EmptyString ++ ("cd: " ++ "/nonexistent" ++ ": No such file or directory") ++
                 newline) Demo.world) ∧
  (∃ w', CdCommand_execute Demo.pf ["/locked"] SysStdout SysStderr Demo.world = (w', Ok tt) ∧
         w' = set_sys_stderr
                (EmptyString ++ ("cd: " ++ "/locked" ++ ": Permission denied") ++ newline)
                Demo.world) ∧
  CdCommand_execute Demo.pf ["~"] SysStdout SysStderr (set_cwd "/bin" Demo.world) =
    (set_cwd "/home/u" (set_cwd "/bin" Demo.world), Ok tt).
Proof.
  assert (∀ w, writable w SysStderr) as Hw by (intros w fd Hfd; discriminate Hfd).
  destruct (cd_outcomes Demo.pf Demo.world SysStdout SysStderr (Hw _)) as (H1 & H2).
  destruct (cd_outcomes Demo.pf (set_cwd "/bin" Demo.world) SysStdout SysStderr (Hw _))
    as (_ & H3).
  split; [apply (H1 []); simpl; lia|].
  split; [apply (proj1 (H2 "/nonexistent")); reflexivity|].
  split; [apply (proj1 (proj2 (H2 "/locked")) eq_refl "[Errno 13] Permission denied");
          reflexivity|].
  apply (proj1 (proj2 (proj2 (H3 "~")))); reflexivity.
Defined.

(** ** A command that is not found, with its stderr redirected *)

Section NotFound.
Context (pf : Platform).



End NotFound.


